(** * The WebRTC browser connector, embedded and verified

    A shallow embedding of [WebRTCBrowserPeerConnectionConnector] and of
    the data channel connector built by [createDataChannel].

    The connector is an adapter over the browser's [RTCPeerConnection].
    The browser object is modelled as a record of the fields the
    connector reads and writes; whatever the browser decides on its own
    (whether a description is accepted, which answer it generates, which
    statistics it reports) is taken from an [Engine], a record of
    functions of the interaction so far.  Every theorem quantifies over
    the engine, so it holds for every behaviour of the browser.

    Promises are modelled by a state-and-rejection monad: an [await] on a
    rejected promise, like a thrown exception, ends the operation and
    keeps the effects made before it.  Operations run one at a time,
    each to its end.

    What is assumed of the browser.  The connection has a pending and a
    current remote description, and its attribute [remoteDescription]
    reads the pending one, or the current one when none is pending.  An
    accepted [setRemoteDescription] makes an answer the current remote
    description, makes any other description but a rollback the pending
    one, and for a rollback drops the pending one; a rejected call
    changes nothing.  An accepted [setLocalDescription] makes the
    description the local description, and with an answer the pending
    remote description becomes the current one.  [createAnswer] is
    refused unless a remote offer is pending.  Assigning an [on...]
    attribute or the direction of a transceiver takes effect and does not
    throw; an event is delivered to the function held by the attribute at
    that moment.  What the browser keeps of a value written to
    [bufferedAmountLowThreshold] is not modelled: the write is recorded
    with the value the connector hands over. *)

From Stdlib Require Import ZArith Lia.
From stdpp Require Import base decidable option list strings.

Open Scope string_scope.
Open Scope list_scope.
Open Scope stdpp_scope.

(** ** Values exchanged with the browser *)

(** A JavaScript [number].  The connector only copies numbers, so a
    number is carried by the integer that encodes its 64-bit pattern. *)
Definition number := Z.

(** Browser objects compared by identity ([===]) are object handles. *)
Definition MediaStreamTrack := nat.
Definition MediaStream := nat.
Definition RTCRtpSender := nat.
Definition IPeerConnectionSender := RTCRtpSender.

(** A function value supplied by the caller, known by its identity. *)
Definition Callback := nat.

(** The reason of a rejected promise or of a thrown exception. *)
Definition DOMException := string.

Record IPeerConnectionSessionDescription := SessionDescription {
  sd_type : string;
  sd_sdp : string
}.

Record RTCIceServer := IceServer {
  urls : list string;
  username : option string;
  credential : option string
}.

Record IPeerConnectionConfiguration := Configuration {
  handshakeServers : list RTCIceServer
}.

Record IPeerConnectionHandshakeCandidate := HandshakeCandidate {
  cand_candidate : string;
  cand_sdpMid : option string;
  cand_sdpMLineIndex : option nat
}.

(** Modelled from the spec: the SDK interface [IPeerConnectionOfferOptions]
    is imported from '@crewdle/web-sdk'; the connector reads its optional
    flag [handshakeRestart]. *)
Record IPeerConnectionOfferOptions := OfferOptions {
  handshakeRestart : option bool
}.

Record RTCOfferOptions := WebRTCOptions {
  iceRestart : option bool
}.

(** Modelled from the spec: the SDK enumeration [MediaStreamPriority]
    is imported from '@crewdle/web-sdk': an enumerated low/medium/high
    send-priority value. *)
Inductive MediaStreamPriority := Low | Medium | High.

Definition RTCPriorityType := string.

Record RTCRtpEncodingParameters := Encoding {
  enc_rid : option string;
  enc_active : bool;
  enc_scaleResolutionDownBy : option number;
  enc_maxFramerate : option number;
  enc_maxBitrate : option number;
  enc_priority : option RTCPriorityType
}.

Record RTCRtpSendParameters := SendParameters {
  transactionId : string;
  encodings : list RTCRtpEncodingParameters
}.

(** One entry of a statistics report. *)
Record PeerConnectionStatsReport := StatsEntry {
  stats_id : string;
  stats_type : string;
  stats_timestamp : number
}.

(** [RTCStatsReport] is a map-like object; [forEach] visits its entries
    in insertion order, so it is kept as the list of its entries. *)
Definition RTCStatsReport := list (string * PeerConnectionStatsReport).

Inductive RTCRtpTransceiverDirection :=
  sendrecv | sendonly | recvonly | inactive | stopped.

Record RTCRtpTransceiver := Transceiver {
  tr_mid : option string;
  tr_sender : RTCRtpSender;
  tr_direction : RTCRtpTransceiverDirection
}.

(** ** Event handler attributes *)

(** The [on...] attributes of the peer connection. *)
Inductive ConnectionSlot :=
  | onicecandidate
  | onconnectionstatechange
  | ondatachannel
  | onicegatheringstatechange
  | oniceconnectionstatechange
  | ontrack
  | onnegotiationneeded.

(** The [on...] attributes of a data channel. *)
Inductive ChannelSlot :=
  | onbufferedamountlow
  | onclose
  | onmessage.

#[global] Instance ConnectionSlot_eq_dec : EqDecision ConnectionSlot.
Proof. solve_decision. Defined.

#[global] Instance ChannelSlot_eq_dec : EqDecision ChannelSlot.
Proof. solve_decision. Defined.

(** What the connector stores in an attribute of the connection: the
    caller's function itself, or the arrow function of [onDataChannel]
    that closes over it. *)
Inductive Handler :=
  | Direct (callback : Callback)
  | WrapChannel (callback : Callback).

(** A data channel connector is the object literal returned by
    [createDataChannel]; it closes over the variable [dataChannel], a
    browser channel or, when the event it was read from carries none,
    [undefined] ([None]). *)
Record IPeerConnectionDataChannelConnector := ChannelConnector {
  dataChannel : option nat
}.

Inductive Slot :=
  | OfConnection (s : ConnectionSlot)
  | OfChannel (k : nat) (s : ChannelSlot).

#[global] Instance Slot_eq_dec : EqDecision Slot.
Proof. solve_decision. Defined.

(** An event object of the browser; [event_channel] is its [channel]
    attribute, present on data channel events. *)
Record NativeEvent := BrowserEvent {
  event_type : string;
  event_channel : option nat
}.

(** What a callback receives: the browser's event, or the object
    [{ channel }] built by the connector. *)
Inductive Payload :=
  | Native (ev : NativeEvent)
  | ChannelEvent (channel : IPeerConnectionDataChannelConnector).

(** ** The interaction with the browser *)

Inductive HostCall :=
  | NewRTCPeerConnection (iceServers : list RTCIceServer)
  | AdapterDisableLog (disable : bool)
  | AddIceCandidate (c : IPeerConnectionHandshakeCandidate)
  | AddTrack (track : MediaStreamTrack) (stream : MediaStream)
  | ClosePeerConnection
  | GetStats (track : MediaStreamTrack)
  | SetRemoteDescription (sd : IPeerConnectionSessionDescription)
  | CreateAnswer
  | SetLocalDescription (sd : IPeerConnectionSessionDescription)
  | CreateDataChannel (label : string)
  | CreateOffer (options : RTCOfferOptions)
  | RemoveTrack (s : RTCRtpSender)
  | ReplaceTrack (s : RTCRtpSender) (track : MediaStreamTrack)
  | RestartIce
  | GetTransceivers
  | GetParameters (s : RTCRtpSender)
  | SetParameters (s : RTCRtpSender) (p : RTCRtpSendParameters)
  | SetBufferedAmountLowThreshold (k : nat) (value : number)
  | ChannelClose (k : nat)
  | ChannelSend (k : nat) (data : string + list Z).

Inductive HostReply :=
  | Done
  | Failed (e : DOMException)
  | Description (sd : IPeerConnectionSessionDescription)
  | Stats (report : option RTCStatsReport)
  | Parameters (p : option RTCRtpSendParameters)
  | SenderHandle (s : RTCRtpSender)
  | Transceivers (ts : list RTCRtpTransceiver)
  | ChannelHandle (k : nat).

(** Everything observable outside the connector, in the order it happens:
    calls into the browser with their replies, and calls of the caller's
    functions. *)
Inductive Event :=
  | Host (c : HostCall) (r : HostReply)
  | Collected (collector : Callback)
      (stats : list (list PeerConnectionStatsReport)) (streamId : string)
  | Invoked (slot : Slot) (callback : Callback) (payload : Payload).

Definition Trace := list Event.

(** The browser's own decisions, each a function of the interaction so
    far.  [None] as a verdict means that the call is accepted. *)
Record Engine := {
  remoteDescriptionVerdict :
    Trace -> IPeerConnectionSessionDescription -> option DOMException;
  localDescriptionVerdict :
    Trace -> IPeerConnectionSessionDescription -> option DOMException;
  answerOutcome : Trace -> DOMException + IPeerConnectionSessionDescription;
  offerOutcome :
    Trace -> RTCOfferOptions -> DOMException + IPeerConnectionSessionDescription;
  statsOutcome :
    Trace -> MediaStreamTrack -> DOMException + option RTCStatsReport;
  parametersOutcome : Trace -> RTCRtpSender -> option RTCRtpSendParameters;
  setParametersVerdict :
    Trace -> RTCRtpSender -> RTCRtpSendParameters -> option DOMException;
  replaceTrackVerdict :
    Trace -> RTCRtpSender -> MediaStreamTrack -> option DOMException;
  candidateVerdict :
    Trace -> IPeerConnectionHandshakeCandidate -> option DOMException;
  addTrackOutcome :
    Trace -> MediaStreamTrack -> MediaStream -> DOMException + RTCRtpSender;
  removeTrackVerdict : Trace -> RTCRtpSender -> option DOMException;
  dataChannelVerdict : Trace -> string -> option DOMException;
  restartIceDefined : bool;
  sendVerdict : Trace -> nat -> string + list Z -> option DOMException;
  configurationVerdict : list RTCIceServer -> option DOMException
}.

(** ** The browser objects *)

Record RTCPeerConnection := PeerConnection {
  configuration : list RTCIceServer;
  pendingRemoteDescription : option IPeerConnectionSessionDescription;
  currentRemoteDescription : option IPeerConnectionSessionDescription;
  localDescription : option IPeerConnectionSessionDescription;
  handlers : ConnectionSlot -> option Handler;
  transceivers : list RTCRtpTransceiver
}.

Record RTCDataChannel := DataChannel {
  ch_label : string;
  channelHandlers : ChannelSlot -> option Callback
}.

(** The connection owned by the connector, the data channels of that
    connection (a channel is known by its index), and the trace. *)
Record World := MkWorld {
  connection : RTCPeerConnection;
  channels : list RTCDataChannel;
  trace : Trace
}.

Definition log (e : Event) (w : World) : World :=
  MkWorld (connection w) (channels w) (trace w ++ [e]).

Definition onConnection (f : RTCPeerConnection -> RTCPeerConnection)
    (w : World) : World :=
  MkWorld (f (connection w)) (channels w) (trace w).

(** The attribute [remoteDescription] of the connection. *)
Definition remoteDescription (c : RTCPeerConnection)
    : option IPeerConnectionSessionDescription :=
  match pendingRemoteDescription c with
  | Some sd => Some sd
  | None => currentRemoteDescription c
  end.

Definition withRemote
    (pending current : option IPeerConnectionSessionDescription)
    (c : RTCPeerConnection) : RTCPeerConnection :=
  PeerConnection (configuration c) pending current (localDescription c)
    (handlers c) (transceivers c).

(** What an accepted [setRemoteDescription] does to the connection. *)
Definition setRemote (sd : IPeerConnectionSessionDescription)
    (c : RTCPeerConnection) : RTCPeerConnection :=
  if decide (sd_type sd = "rollback")
  then withRemote None (currentRemoteDescription c) c
  else if decide (sd_type sd = "answer")
  then withRemote None (Some sd) c
  else withRemote (Some sd) (currentRemoteDescription c) c.

(** What an accepted [setLocalDescription] does to the connection. *)
Definition setLocal (sd : IPeerConnectionSessionDescription)
    (c : RTCPeerConnection) : RTCPeerConnection :=
  PeerConnection (configuration c)
    (if decide (sd_type sd = "answer") then None
     else pendingRemoteDescription c)
    (if decide (sd_type sd = "answer") then remoteDescription c
     else currentRemoteDescription c)
    (Some sd) (handlers c) (transceivers c).

Definition setHandler (s : ConnectionSlot) (h : option Handler)
    (c : RTCPeerConnection) : RTCPeerConnection :=
  PeerConnection (configuration c) (pendingRemoteDescription c)
    (currentRemoteDescription c) (localDescription c)
    (fun s' => if decide (s' = s) then h else handlers c s')
    (transceivers c).

Definition setTransceivers (ts : list RTCRtpTransceiver)
    (c : RTCPeerConnection) : RTCPeerConnection :=
  PeerConnection (configuration c) (pendingRemoteDescription c)
    (currentRemoteDescription c) (localDescription c) (handlers c) ts.

Definition setDirection (d : RTCRtpTransceiverDirection)
    (t : RTCRtpTransceiver) : RTCRtpTransceiver :=
  Transceiver (tr_mid t) (tr_sender t) d.

(** ** Promises *)

Inductive Outcome (A : Type) :=
  | Resolved (a : A)
  | Rejected (e : DOMException).

Arguments Resolved {A} a.
Arguments Rejected {A} e.

Definition Async (A : Type) : Type := World -> Outcome A * World.

#[global] Instance Async_ret : MRet Async :=
  fun A a w => (Resolved a, w).

#[global] Instance Async_bind : MBind Async :=
  fun A B k m w =>
    match m w with
    | (Resolved a, w') => k a w'
    | (Rejected e, w') => (Rejected e, w')
    end.

(** [promise.catch(() => {})]: a rejection is turned into a normal
    completion; the effects of the rejected operation stay. *)
Definition catch_ignore (m : Async unit) : Async unit :=
  fun w =>
    match m w with
    | (Resolved a, w') => (Resolved a, w')
    | (Rejected _, w') => (Resolved tt, w')
    end.

Definition modify (f : World -> World) : Async unit :=
  fun w => (Resolved tt, f w).

Definition inspect {A} (f : World -> A) : Async A :=
  fun w => (Resolved (f w), w).

(** Modelled from the spec: the SDK interface [IPeerConnectionSenderMap]
    is imported from '@crewdle/web-sdk': a sender-map per stream, with an
    optional video and/or audio track+sender pair. *)
Record SenderEntry := MkSenderEntry {
  entry_track : option MediaStreamTrack;
  entry_sender : option IPeerConnectionSender
}.

Record SenderTracks := MkSenderTracks {
  video : option SenderEntry;
  audio : option SenderEntry
}.

Record IPeerConnectionSenderMap := SenderMap {
  sm_tracks : SenderTracks
}.

(** A JavaScript [Map] iterates over its entries in insertion order and
    a [Set] over its elements in insertion order: both are kept as the
    list of that order.  The keys of a [Map] are pairwise distinct. *)
Definition JsMap (V : Type) : Type := list (string * V).
Definition JsSet (A : Type) : Type := list A.

Definition keys {V} (m : JsMap V) : list string := m.*1.

(** ** The free functions of the module *)

Definition createDataChannel (dataChannel : option nat)
    : IPeerConnectionDataChannelConnector :=
  ChannelConnector dataChannel.

Definition convertStatsReport (report : RTCStatsReport)
    : list PeerConnectionStatsReport :=
  foldl (fun stats entry => stats ++ [entry.2]) [] report.

Definition convertPriority (priority : MediaStreamPriority) : RTCPriorityType :=
  match priority with
  | Low => "low"
  | High => "high"
  | _ => "medium"
  end.

(** ** The browser's side of each call *)

Section Browser.

Variable E : Engine.

(** A call that resolves without a value: the verdict decides between
    the effect of an accepted call and a rejection. *)
Definition hostVerdict (c : HostCall) (verdict : Trace -> option DOMException)
    (effect : World -> World) : Async unit :=
  fun w =>
    match verdict (trace w) with
    | None => (Resolved tt, log (Host c Done) (effect w))
    | Some e => (Rejected e, log (Host c (Failed e)) w)
    end.

(** A call that resolves with a value. *)
Definition hostOutcome {A} (c : HostCall) (outcome : Trace -> DOMException + A)
    (reply : A -> HostReply) : Async A :=
  fun w =>
    match outcome (trace w) with
    | inr a => (Resolved a, log (Host c (reply a)) w)
    | inl e => (Rejected e, log (Host c (Failed e)) w)
    end.

(** An accepted [setRemoteDescription] commits the description to the
    connection; a rejected one changes nothing. *)
Definition host_setRemoteDescription (sd : IPeerConnectionSessionDescription)
    : Async unit :=
  hostVerdict (SetRemoteDescription sd)
    (fun t => remoteDescriptionVerdict E t sd) (onConnection (setRemote sd)).

Definition host_setLocalDescription (sd : IPeerConnectionSessionDescription)
    : Async unit :=
  hostVerdict (SetLocalDescription sd)
    (fun t => localDescriptionVerdict E t sd) (onConnection (setLocal sd)).

(** The browser generates an answer only while a remote offer is
    pending; otherwise [createAnswer] is rejected. *)
Definition host_createAnswer : Async IPeerConnectionSessionDescription :=
  fun w =>
    match pendingRemoteDescription (connection w) with
    | Some sd =>
        if decide (sd_type sd = "offer")
        then hostOutcome CreateAnswer (answerOutcome E) Description w
        else (Rejected "InvalidStateError",
              log (Host CreateAnswer (Failed "InvalidStateError")) w)
    | None =>
        (Rejected "InvalidStateError",
         log (Host CreateAnswer (Failed "InvalidStateError")) w)
    end.

Definition host_createOffer (options : RTCOfferOptions)
    : Async IPeerConnectionSessionDescription :=
  hostOutcome (CreateOffer options) (fun t => offerOutcome E t options)
    Description.

Definition host_getStats (track : MediaStreamTrack)
    : Async (option RTCStatsReport) :=
  hostOutcome (GetStats track) (fun t => statsOutcome E t track) Stats.

Definition host_getParameters (s : RTCRtpSender)
    : Async (option RTCRtpSendParameters) :=
  fun w =>
    let p := parametersOutcome E (trace w) s in
    (Resolved p, log (Host (GetParameters s) (Parameters p)) w).

Definition host_setParameters (s : RTCRtpSender) (p : RTCRtpSendParameters)
    : Async unit :=
  hostVerdict (SetParameters s p) (fun t => setParametersVerdict E t s p) id.

Definition host_replaceTrack (s : RTCRtpSender) (track : MediaStreamTrack)
    : Async unit :=
  hostVerdict (ReplaceTrack s track) (fun t => replaceTrackVerdict E t s track)
    id.

(** [getTransceivers()] returns the transceivers of the connection. *)
Definition host_getTransceivers : Async (list RTCRtpTransceiver) :=
  fun w =>
    let ts := transceivers (connection w) in
    (Resolved ts, log (Host GetTransceivers (Transceivers ts)) w).

Definition host_addIceCandidate (c : IPeerConnectionHandshakeCandidate)
    : Async unit :=
  hostVerdict (AddIceCandidate c) (fun t => candidateVerdict E t c) id.

Definition host_addTrack (track : MediaStreamTrack) (stream : MediaStream)
    : Async RTCRtpSender :=
  hostOutcome (AddTrack track stream) (fun t => addTrackOutcome E t track stream)
    SenderHandle.

Definition host_removeTrack (s : RTCRtpSender) : Async unit :=
  hostVerdict (RemoveTrack s) (fun t => removeTrackVerdict E t s) id.

Definition host_close : Async unit :=
  modify (log (Host ClosePeerConnection Done)).

(** [restartIce] is missing from browsers that do not support it;
    calling the missing method throws. *)
Definition host_restartIce : Async unit :=
  fun w =>
    if restartIceDefined E then (Resolved tt, log (Host RestartIce Done) w)
    else (Rejected "TypeError", w).

Definition newChannel (label : string) : RTCDataChannel :=
  DataChannel label (fun _ => None).

(** A new channel is stored after the existing ones; its index is its
    identity. *)
Definition host_createDataChannel (label : string) : Async nat :=
  fun w =>
    match dataChannelVerdict E (trace w) label with
    | None =>
        let k := length (channels w) in
        (Resolved k,
         log (Host (CreateDataChannel label) (ChannelHandle k))
           (MkWorld (connection w) (channels w ++ [newChannel label]) (trace w)))
    | Some e => (Rejected e, log (Host (CreateDataChannel label) (Failed e)) w)
    end.

(** The write of [bufferedAmountLowThreshold]; what the browser keeps of
    the value written is left to the browser. *)
Definition host_setThreshold (k : nat) (value : number) : Async unit :=
  modify (log (Host (SetBufferedAmountLowThreshold k value) Done)).

Definition host_channelClose (k : nat) : Async unit :=
  modify (log (Host (ChannelClose k) Done)).

Definition host_channelSend (k : nat) (data : string + list Z) : Async unit :=
  hostVerdict (ChannelSend k data) (fun t => sendVerdict E t k data) id.

End Browser.

(** ** The peer connection connector *)

Module WebRTCBrowserPeerConnectionConnector.
Section Methods.

Variable E : Engine.

(** [new WebRTCBrowserPeerConnectionConnector(config)]: the world in
    which the connector owns a connection just created.  When the browser
    refuses the configuration, [new RTCPeerConnection] throws and there
    is no connector; [constructor] is the outcome of a construction that
    succeeded. *)
Definition constructor (config : IPeerConnectionConfiguration) : World :=
  let rtcConfig := handshakeServers config in
  MkWorld (PeerConnection rtcConfig None None None (fun _ => None) []) []
    [Host (NewRTCPeerConnection rtcConfig) Done;
     Host (AdapterDisableLog false) Done].

(** [new WebRTCBrowserPeerConnectionConnector(config)] as a call: the
    exception of [new RTCPeerConnection] when the browser refuses the
    servers, and no connector; the connector of [constructor]
    otherwise. *)
Definition construct (config : IPeerConnectionConfiguration)
    : DOMException + World :=
  match configurationVerdict E (handshakeServers config) with
  | Some e => inl e
  | None => inr (constructor config)
  end.

Definition canAddCandidates (w : World) : bool :=
  bool_decide (remoteDescription (connection w) <> None).

Definition canRestartHandshake : bool := restartIceDefined E.

Definition set_attribute (s : ConnectionSlot) (h : option Handler)
    : Async unit :=
  modify (onConnection (setHandler s h)).

Definition onCandidate (callback : option Callback) : Async unit :=
  set_attribute onicecandidate (Direct <$> callback).

Definition onConnectionStateChange (callback : option Callback) : Async unit :=
  set_attribute onconnectionstatechange (Direct <$> callback).

Definition onDataChannel (callback : option Callback) : Async unit :=
  match callback with
  | None => set_attribute ondatachannel None
  | Some callback => set_attribute ondatachannel (Some (WrapChannel callback))
  end.

Definition onGatheringStateChange (callback : option Callback) : Async unit :=
  set_attribute onicegatheringstatechange (Direct <$> callback).

Definition onHandshakeStateChange (callback : option Callback) : Async unit :=
  set_attribute oniceconnectionstatechange (Direct <$> callback).

Definition onTrack (callback : option Callback) : Async unit :=
  set_attribute ontrack (Direct <$> callback).

Definition addCandidate (candidate : IPeerConnectionHandshakeCandidate)
    : Async unit :=
  host_addIceCandidate E candidate.

Definition addTrack (track : MediaStreamTrack) (stream : MediaStream)
    : Async IPeerConnectionSender :=
  host_addTrack E track stream.

Definition close : Async unit := host_close.

(** The call [collector(stats, streamId)]. *)
Definition call_collector (collector : Callback)
    (stats : list (list PeerConnectionStatsReport)) (streamId : string)
    : Async unit :=
  modify (log (Collected collector stats streamId)).

(** The inner loop of [collectReceiversStats], over the tracks of one
    stream; [stats] is the array filled so far. *)
Fixpoint receiverTracksStats (tracks : JsSet MediaStreamTrack)
    (stats : list (list PeerConnectionStatsReport))
    : Async (list (list PeerConnectionStatsReport)) :=
  match tracks with
  | [] => mret stats
  | track :: tracks =>
      trackStats ← host_getStats E track;
      receiverTracksStats tracks
        (match trackStats with
         | Some trackStats => stats ++ [convertStatsReport trackStats]
         | None => stats
         end)
  end.

Fixpoint collectReceiversStats (receivers : JsMap (JsSet MediaStreamTrack))
    (collector : Callback) : Async unit :=
  match receivers with
  | [] => mret tt
  | (streamId, tracks) :: receivers =>
      stats ← receiverTracksStats tracks [];
      (if decide (length stats = 0) then mret tt
       else call_collector collector stats streamId) ;;
      collectReceiversStats receivers collector
  end.

Fixpoint collectSendersStats (senders : JsMap IPeerConnectionSenderMap)
    (collector : Callback) : Async unit :=
  match senders with
  | [] => mret tt
  | (streamId, stream) :: senders =>
      let stats := [] in
      stats ←
        match video (sm_tracks stream) ≫= entry_track,
              video (sm_tracks stream) ≫= entry_sender with
        | Some track, Some _ =>
            videoStats ← host_getStats E track;
            mret (match videoStats with
                  | Some videoStats => stats ++ [convertStatsReport videoStats]
                  | None => stats
                  end)
        | _, _ => mret stats
        end;
      stats ←
        match audio (sm_tracks stream) ≫= entry_track,
              audio (sm_tracks stream) ≫= entry_sender with
        | Some track, Some _ =>
            audioStats ← host_getStats E track;
            mret (match audioStats with
                  | Some audioStats => stats ++ [convertStatsReport audioStats]
                  | None => stats
                  end)
        | _, _ => mret stats
        end;
      (if decide (length stats = 0) then mret tt
       else call_collector collector stats streamId) ;;
      collectSendersStats senders collector
  end.

Definition createAnswer (offer : IPeerConnectionSessionDescription)
    : Async IPeerConnectionSessionDescription :=
  host_setRemoteDescription E offer ;;
  answer ← host_createAnswer E;
  host_setLocalDescription E answer ;;
  mret answer.

Definition createDataChannel (label : string)
    : Async IPeerConnectionDataChannelConnector :=
  k ← host_createDataChannel E label;
  mret (createDataChannel (Some k)).

Definition createOffer (options : option IPeerConnectionOfferOptions)
    : Async IPeerConnectionSessionDescription :=
  let webRTCOptions := WebRTCOptions None in
  let webRTCOptions :=
    match options ≫= handshakeRestart with
    | Some true => WebRTCOptions (Some true)
    | _ => webRTCOptions
    end in
  offer ← host_createOffer E webRTCOptions;
  host_setLocalDescription E offer ;;
  mret offer.

Definition handleAnswer (answer : IPeerConnectionSessionDescription)
    (negotiationHandler : Callback) : Async unit :=
  host_setRemoteDescription E answer ;;
  current ← inspect (fun w => handlers (connection w) onnegotiationneeded);
  match current with
  | None => set_attribute onnegotiationneeded (Some (Direct negotiationHandler))
  | Some _ => mret tt
  end.

Definition removeTrack (sender : IPeerConnectionSender) : Async unit :=
  host_removeTrack E sender.

Definition replaceTrack (track : MediaStreamTrack)
    (sender : IPeerConnectionSender) : Async unit :=
  let rtcSender := sender in
  host_replaceTrack E rtcSender track ;;
  transceivers ← host_getTransceivers;
  modify (onConnection (setTransceivers
    (map (fun transceiver =>
            if decide (tr_sender transceiver = rtcSender)
            then setDirection sendrecv transceiver
            else transceiver)
       transceivers))).

Definition restartHandshake : Async unit := host_restartIce E.

Definition setEncodingParameters (sender : IPeerConnectionSender)
    (scaleResolutionDownBy maxFramerate maxBitrate : number)
    (priority : MediaStreamPriority) : Async unit :=
  let rtcSender := sender in
  parameters ← host_getParameters E rtcSender;
  match parameters with
  | None => mret tt
  | Some parameters =>
      let parameters :=
        SendParameters (transactionId parameters)
          (map (fun encoding =>
                  Encoding (enc_rid encoding) (enc_active encoding)
                    (Some scaleResolutionDownBy) (Some maxFramerate)
                    (Some maxBitrate) (Some (convertPriority priority)))
             (encodings parameters)) in
      catch_ignore (host_setParameters E rtcSender parameters)
  end.

End Methods.
End WebRTCBrowserPeerConnectionConnector.

(** ** The data channel connector

    The members of the object literal returned by [createDataChannel];
    [self] stands for the closure, which holds [dataChannel]. *)

Module DataChannelConnector.
Section Members.

Variable E : Engine.

Definition onChannel (k : nat) (f : RTCDataChannel -> RTCDataChannel)
    (w : World) : World :=
  MkWorld (connection w) (alter f k (channels w)) (trace w).

Definition setChannelHandler (s : ChannelSlot) (cb : option Callback)
    (ch : RTCDataChannel) : RTCDataChannel :=
  DataChannel (ch_label ch)
    (fun s' => if decide (s' = s) then cb else channelHandlers ch s').

(** A member that uses [dataChannel] throws when the closure holds
    [undefined]. *)
Definition withChannel {A} (self : IPeerConnectionDataChannelConnector)
    (body : nat -> Async A) : Async A :=
  match dataChannel self with
  | Some k => body k
  | None => fun w => (Rejected "TypeError", w)
  end.

Definition set_bufferedAmountLowThreshold
    (self : IPeerConnectionDataChannelConnector) (value : number)
    : Async unit :=
  withChannel self (fun k => host_setThreshold k value).

Definition onBufferedAmountLow (self : IPeerConnectionDataChannelConnector)
    (callback : option Callback) : Async unit :=
  withChannel self (fun k =>
    modify (onChannel k (setChannelHandler onbufferedamountlow callback))).

Definition onClose (self : IPeerConnectionDataChannelConnector)
    (callback : option Callback) : Async unit :=
  withChannel self (fun k =>
    modify (onChannel k (setChannelHandler onclose callback))).

Definition onMessage (self : IPeerConnectionDataChannelConnector)
    (callback : option Callback) : Async unit :=
  withChannel self (fun k =>
    modify (onChannel k (setChannelHandler onmessage callback))).

Definition close (self : IPeerConnectionDataChannelConnector) : Async unit :=
  withChannel self host_channelClose.

Definition send (self : IPeerConnectionDataChannelConnector)
    (data : string + list Z) : Async unit :=
  withChannel self (fun k =>
    match data with
    | inr buffer => host_channelSend E k (inr buffer)
    | inl text => host_channelSend E k (inl text)
    end).

End Members.
End DataChannelConnector.

Module PC := WebRTCBrowserPeerConnectionConnector.
Module DC := DataChannelConnector.

(** ** Events fired by the browser *)

(** Calling what an attribute of the connection holds.  The arrow
    function installed by [onDataChannel] wraps [event.channel] before it
    calls the caller's function. *)
Definition applyHandler (s : ConnectionSlot) (h : Handler) (ev : NativeEvent)
    (w : World) : World :=
  match h with
  | Direct callback => log (Invoked (OfConnection s) callback (Native ev)) w
  | WrapChannel callback =>
      log (Invoked (OfConnection s) callback
             (ChannelEvent (createDataChannel (event_channel ev)))) w
  end.

(** An event on the connection reaches the function held by its
    attribute; with no function there, the event is dropped. *)
Definition fire (s : ConnectionSlot) (ev : NativeEvent) (w : World) : World :=
  match handlers (connection w) s with
  | Some h => applyHandler s h ev w
  | None => w
  end.

Definition channelHandler (w : World) (k : nat) (s : ChannelSlot)
    : option Callback :=
  ch ← channels w !! k; channelHandlers ch s.

Definition fireChannel (k : nat) (s : ChannelSlot) (ev : NativeEvent)
    (w : World) : World :=
  match channelHandler w k s with
  | Some callback => log (Invoked (OfChannel k s) callback (Native ev)) w
  | None => w
  end.

(** The remote peer opens a channel: the browser creates the channel
    object and fires [datachannel] with it. *)
Definition incomingChannel (label : string) (w : World) : World :=
  let k := length (channels w) in
  fire ondatachannel (BrowserEvent "datachannel" (Some k))
    (MkWorld (connection w) (channels w ++ [newChannel label]) (trace w)).

(** ** Histories of a connector *)

(** One thing that happens to a connector: the caller sets a callback or
    calls a method, or the browser fires an event. *)
Inductive Step :=
  | SetOnCandidate (callback : option Callback)
  | SetOnConnectionStateChange (callback : option Callback)
  | SetOnDataChannel (callback : option Callback)
  | SetOnGatheringStateChange (callback : option Callback)
  | SetOnHandshakeStateChange (callback : option Callback)
  | SetOnTrack (callback : option Callback)
  | AddCandidate (candidate : IPeerConnectionHandshakeCandidate)
  | DoAddTrack (track : MediaStreamTrack) (stream : MediaStream)
  | DoClose
  | CollectReceiversStats (receivers : JsMap (JsSet MediaStreamTrack))
      (collector : Callback)
  | CollectSendersStats (senders : JsMap IPeerConnectionSenderMap)
      (collector : Callback)
  | DoCreateAnswer (offer : IPeerConnectionSessionDescription)
  | DoCreateDataChannel (label : string)
  | DoCreateOffer (options : option IPeerConnectionOfferOptions)
  | HandleAnswer (answer : IPeerConnectionSessionDescription)
      (negotiationHandler : Callback)
  | DoRemoveTrack (sender : IPeerConnectionSender)
  | DoReplaceTrack (track : MediaStreamTrack) (sender : IPeerConnectionSender)
  | RestartHandshake
  | SetEncodingParameters (sender : IPeerConnectionSender)
      (scaleResolutionDownBy maxFramerate maxBitrate : number)
      (priority : MediaStreamPriority)
  | ChannelSetThreshold (self : IPeerConnectionDataChannelConnector)
      (value : number)
  | ChannelSetOnBufferedAmountLow (self : IPeerConnectionDataChannelConnector)
      (callback : option Callback)
  | ChannelSetOnClose (self : IPeerConnectionDataChannelConnector)
      (callback : option Callback)
  | ChannelSetOnMessage (self : IPeerConnectionDataChannelConnector)
      (callback : option Callback)
  | DoChannelClose (self : IPeerConnectionDataChannelConnector)
  | DoChannelSend (self : IPeerConnectionDataChannelConnector)
      (data : string + list Z)
  | Fire (s : ConnectionSlot) (ev : NativeEvent)
  | FireChannel (k : nat) (s : ChannelSlot) (ev : NativeEvent)
  | IncomingChannel (label : string).

Section Histories.

Variable E : Engine.

Definition after {A} (m : Async A) (w : World) : World := (m w).2.

Definition step (s : Step) : World -> World :=
  match s with
  | SetOnCandidate cb => after (PC.onCandidate cb)
  | SetOnConnectionStateChange cb => after (PC.onConnectionStateChange cb)
  | SetOnDataChannel cb => after (PC.onDataChannel cb)
  | SetOnGatheringStateChange cb => after (PC.onGatheringStateChange cb)
  | SetOnHandshakeStateChange cb => after (PC.onHandshakeStateChange cb)
  | SetOnTrack cb => after (PC.onTrack cb)
  | AddCandidate c => after (PC.addCandidate E c)
  | DoAddTrack track stream => after (PC.addTrack E track stream)
  | DoClose => after PC.close
  | CollectReceiversStats receivers collector =>
      after (PC.collectReceiversStats E receivers collector)
  | CollectSendersStats senders collector =>
      after (PC.collectSendersStats E senders collector)
  | DoCreateAnswer offer => after (PC.createAnswer E offer)
  | DoCreateDataChannel label => after (PC.createDataChannel E label)
  | DoCreateOffer options => after (PC.createOffer E options)
  | HandleAnswer answer h => after (PC.handleAnswer E answer h)
  | DoRemoveTrack sender => after (PC.removeTrack E sender)
  | DoReplaceTrack track sender => after (PC.replaceTrack E track sender)
  | RestartHandshake => after (PC.restartHandshake E)
  | SetEncodingParameters sender a b c p =>
      after (PC.setEncodingParameters E sender a b c p)
  | ChannelSetThreshold self v => after (DC.set_bufferedAmountLowThreshold self v)
  | ChannelSetOnBufferedAmountLow self cb => after (DC.onBufferedAmountLow self cb)
  | ChannelSetOnClose self cb => after (DC.onClose self cb)
  | ChannelSetOnMessage self cb => after (DC.onMessage self cb)
  | DoChannelClose self => after (DC.close self)
  | DoChannelSend self data => after (DC.send E self data)
  | Fire s ev => fire s ev
  | FireChannel k s ev => fireChannel k s ev
  | IncomingChannel label => incomingChannel label
  end.

Definition run (steps : list Step) (w : World) : World :=
  foldl (fun w s => step s w) w steps.

End Histories.

(** ** Browsers used in the examples *)

Definition answer0 : IPeerConnectionSessionDescription :=
  SessionDescription "answer" "v=0 answer".

Definition offer0 : IPeerConnectionSessionDescription :=
  SessionDescription "offer" "v=0 offer".

Definition entry0 : PeerConnectionStatsReport :=
  StatsEntry "RTCInboundRTPVideoStream_1" "inbound-rtp" 1000%Z.

(** A browser that accepts every call, answers with [answer0], offers
    [offer0], and reports one entry for every track. *)
Definition agreeable : Engine := {|
  remoteDescriptionVerdict := fun _ _ => None;
  localDescriptionVerdict := fun _ _ => None;
  answerOutcome := fun _ => inr answer0;
  offerOutcome := fun _ _ => inr offer0;
  statsOutcome := fun _ _ => inr (Some [("RTCInboundRTPVideoStream_1", entry0)]);
  parametersOutcome := fun _ _ =>
    Some (SendParameters "tx1"
            [Encoding (Some "h") true None None None None;
             Encoding (Some "l") false (Some 4%Z) None None (Some "low")]);
  setParametersVerdict := fun _ _ _ => None;
  replaceTrackVerdict := fun _ _ _ => None;
  candidateVerdict := fun _ _ => None;
  addTrackOutcome := fun _ track _ => inr track;
  removeTrackVerdict := fun _ _ => None;
  dataChannelVerdict := fun _ _ => None;
  restartIceDefined := true;
  sendVerdict := fun _ _ _ => None;
  configurationVerdict := fun _ => None
|}.

(** A browser that rejects every remote description and every parameter
    commit, and has no parameters and no statistics for any sender or
    track. *)
Definition stubborn : Engine := {|
  remoteDescriptionVerdict := fun _ _ => Some "InvalidAccessError";
  localDescriptionVerdict := fun _ _ => None;
  answerOutcome := fun _ => inr answer0;
  offerOutcome := fun _ _ => inr offer0;
  statsOutcome := fun _ _ => inr None;
  parametersOutcome := fun _ _ => None;
  setParametersVerdict := fun _ _ _ => Some "InvalidModificationError";
  replaceTrackVerdict := fun _ _ _ => Some "InvalidModificationError";
  candidateVerdict := fun _ _ => Some "InvalidStateError";
  addTrackOutcome := fun _ _ _ => inl "InvalidAccessError";
  removeTrackVerdict := fun _ _ => None;
  dataChannelVerdict := fun _ _ => None;
  restartIceDefined := false;
  sendVerdict := fun _ _ _ => None;
  configurationVerdict := fun servers =>
    match servers with
    | [] => None
    | _ :: _ => Some "SyntaxError"
    end
|}.

Definition world0 : World := PC.constructor (Configuration []).

(** A connection with three transceivers: sender 7 sends only, sender 8
    receives only, sender 9 is inactive. *)
Definition world_transceivers : World :=
  MkWorld
    (PeerConnection [] None None None (fun _ => None)
       [Transceiver (Some "0") 7 sendonly;
        Transceiver (Some "1") 8 recvonly;
        Transceiver None 9 inactive])
    [] [].

(** ** Observations of a world *)

(** The remote description a step submits to the browser, if it
    submits one. *)
Definition submitsRemote (s : Step) : option IPeerConnectionSessionDescription :=
  match s with
  | DoCreateAnswer offer => Some offer
  | HandleAnswer answer _ => Some answer
  | _ => None
  end.

(** The callback slot a step assigns through a setter, with the value
    assigned. *)
Definition assigns (s : Step) : option (Slot * option Callback) :=
  match s with
  | SetOnCandidate cb => Some (OfConnection onicecandidate, cb)
  | SetOnConnectionStateChange cb =>
      Some (OfConnection onconnectionstatechange, cb)
  | SetOnDataChannel cb => Some (OfConnection ondatachannel, cb)
  | SetOnGatheringStateChange cb =>
      Some (OfConnection onicegatheringstatechange, cb)
  | SetOnHandshakeStateChange cb =>
      Some (OfConnection oniceconnectionstatechange, cb)
  | SetOnTrack cb => Some (OfConnection ontrack, cb)
  | ChannelSetOnBufferedAmountLow self cb =>
      k ← dataChannel self; Some (OfChannel k onbufferedamountlow, cb)
  | ChannelSetOnClose self cb =>
      k ← dataChannel self; Some (OfChannel k onclose, cb)
  | ChannelSetOnMessage self cb =>
      k ← dataChannel self; Some (OfChannel k onmessage, cb)
  | _ => None
  end.

Definition assignsTo (slot : Slot) (s : Step) : bool :=
  match assigns s with
  | Some (slot', _) => bool_decide (slot' = slot)
  | None => false
  end.

(** The caller's function behind what an attribute holds. *)
Definition handlerCallback (h : Handler) : Callback :=
  match h with
  | Direct callback => callback
  | WrapChannel callback => callback
  end.

(** The caller's function that an event on the slot reaches. *)
Definition registered (w : World) (slot : Slot) : option Callback :=
  match slot with
  | OfConnection s => handlerCallback <$> handlers (connection w) s
  | OfChannel k s => channelHandler w k s
  end.

(** The slot exists: a slot of the connection always does, a slot of a
    channel when the channel does. *)
Definition slotExists (w : World) (slot : Slot) : Prop :=
  match slot with
  | OfConnection _ => True
  | OfChannel k _ => k < length (channels w)
  end.

Definition isInvoked (e : Event) : bool :=
  match e with
  | Invoked _ _ _ => true
  | _ => false
  end.

(** The callbacks called for events on a slot, in order. *)
Definition invocations (slot : Slot) (t : Trace) : list Callback :=
  omap (fun e =>
          match e with
          | Invoked slot' callback _ =>
              if decide (slot' = slot) then Some callback else None
          | _ => None
          end) t.

(** The steps that are an event on a slot. *)
Definition firesOn (slot : Slot) (s : Step) : bool :=
  match s with
  | Fire c _ => bool_decide (OfConnection c = slot)
  | FireChannel k c _ => bool_decide (OfChannel k c = slot)
  | IncomingChannel _ => bool_decide (OfConnection ondatachannel = slot)
  | _ => false
  end.

(** The number of events on a slot among the steps. *)
Fixpoint eventsOn (slot : Slot) (steps : list Step) : nat :=
  match steps with
  | [] => 0
  | s :: steps => (if firesOn slot s then 1 else 0) + eventsOn slot steps
  end.

(** A world in which the caller listens to incoming tracks with the
    function 4. *)
Definition world_listening : World :=
  after (PC.onTrack (Some 4)) world0.

(** ** Statistics: what a collection is expected to do *)

Definition Batch := list (list PeerConnectionStatsReport).

(** The batch built from the browser's replies for the tracks of a
    stream: one converted report per reply that carries a report, in
    the order of the replies. *)
Definition batchOf (replies : list (option RTCStatsReport)) : Batch :=
  convertStatsReport <$> omap id replies.

(** The requests for the statistics of the tracks, with their replies. *)
Definition statsEvents (tracks : list MediaStreamTrack)
    (replies : list (option RTCStatsReport)) : Trace :=
  zip_with (fun track reply => Host (GetStats track) (Stats reply))
    tracks replies.

(** The call of the collector for a stream, which is made only for a
    batch that is not empty. *)
Definition collectorEvent (collector : Callback) (streamId : string)
    (batch : Batch) : Trace :=
  match batch with
  | [] => []
  | _ => [Collected collector batch streamId]
  end.

(** Everything that happens for one stream whose tracks all get a
    reply. *)
Definition streamRound (collector : Callback)
    (round : (string * list MediaStreamTrack) * list (option RTCStatsReport))
    : Trace :=
  statsEvents round.1.2 round.2
  ++ collectorEvent collector round.1.1 (batchOf round.2).

(** The calls of a collector in a trace, in order. *)
Definition collectorCalls (t : Trace) : list (Callback * Batch * string) :=
  omap (fun e =>
          match e with
          | Collected collector stats streamId =>
              Some (collector, stats, streamId)
          | _ => None
          end) t.

(** The calls of a collector made while an operation runs. *)
Definition callsDuring {A} (m : Async A) (w : World)
    : list (Callback * Batch * string) :=
  collectorCalls (drop (length (trace w)) (trace (after m w))).

(** The call expected for a stream, given the replies for its tracks. *)
Definition expectedCall (collector : Callback)
    (round : (string * list MediaStreamTrack) * list (option RTCStatsReport))
    : option (Callback * Batch * string) :=
  match batchOf round.2 with
  | [] => None
  | batch => Some (collector, batch, round.1.1)
  end.

(** The tracks whose statistics [collectSendersStats] requests for an
    entry of a sender map: the track of the entry, when the entry has
    both a track and a sender. *)
Definition contributes (entry : option SenderEntry) : list MediaStreamTrack :=
  match entry with
  | Some (MkSenderEntry (Some track) (Some _)) => [track]
  | _ => []
  end.

(** For a stream: the video track first, then the audio track. *)
Definition senderTracks (stream : IPeerConnectionSenderMap)
    : list MediaStreamTrack :=
  contributes (video (sm_tracks stream))
  ++ contributes (audio (sm_tracks stream)).

(** The sender map seen as a receivers map: each stream with the tracks
    whose statistics are requested for it. *)
Definition senderStreams (senders : JsMap IPeerConnectionSenderMap)
    : JsMap (JsSet MediaStreamTrack) :=
  (fun entry => (entry.1, senderTracks entry.2)) <$> senders.

(** The claim that only a report with entries makes the collector run:
    every batch handed to the collector holds a report that is not
    empty. *)
Definition collectsOnlyNonEmptyReports (E : Engine)
    (receivers : JsMap (JsSet MediaStreamTrack)) (collector : Callback)
    (w : World) : Prop :=
  forall call,
    call ∈ callsDuring (PC.collectReceiversStats E receivers collector) w ->
    exists report, report ∈ call.1.2 /\ report <> [].

(** A sender map with a complete video entry (track 1) and a complete
    audio entry (track 2) for stream A, and for stream B a video entry
    that lacks its sender and no audio entry. *)
Definition sendersAB : JsMap IPeerConnectionSenderMap :=
  [("streamA",
    SenderMap (MkSenderTracks (Some (MkSenderEntry (Some 1) (Some 11)))
                 (Some (MkSenderEntry (Some 2) (Some 12)))));
   ("streamB",
    SenderMap (MkSenderTracks (Some (MkSenderEntry (Some 3) None)) None))].

(** A browser that has statistics for every track but track 3. *)
Definition selective : Engine := {|
  remoteDescriptionVerdict := fun _ _ => None;
  localDescriptionVerdict := fun _ _ => None;
  answerOutcome := fun _ => inr answer0;
  offerOutcome := fun _ _ => inr offer0;
  statsOutcome := fun _ track =>
    if decide (track = 3) then inr None
    else inr (Some [("RTCInboundRTPVideoStream_1", entry0)]);
  parametersOutcome := fun _ _ => None;
  setParametersVerdict := fun _ _ _ => None;
  replaceTrackVerdict := fun _ _ _ => None;
  candidateVerdict := fun _ _ => None;
  addTrackOutcome := fun _ track _ => inr track;
  removeTrackVerdict := fun _ _ => None;
  dataChannelVerdict := fun _ _ => None;
  restartIceDefined := true;
  sendVerdict := fun _ _ _ => None;
  configurationVerdict := fun _ => None
|}.

(** A browser whose statistics reports have no entry. *)
Definition terse : Engine := {|
  remoteDescriptionVerdict := fun _ _ => None;
  localDescriptionVerdict := fun _ _ => None;
  answerOutcome := fun _ => inr answer0;
  offerOutcome := fun _ _ => inr offer0;
  statsOutcome := fun _ _ => inr (Some []);
  parametersOutcome := fun _ _ => None;
  setParametersVerdict := fun _ _ _ => None;
  replaceTrackVerdict := fun _ _ _ => None;
  candidateVerdict := fun _ _ => None;
  addTrackOutcome := fun _ track _ => inr track;
  removeTrackVerdict := fun _ _ => None;
  dataChannelVerdict := fun _ _ => None;
  restartIceDefined := true;
  sendVerdict := fun _ _ _ => None;
  configurationVerdict := fun _ => None
|}.

(** The receivers of the example: stream A with the tracks 1 and 2,
    stream B with the track 3. *)
Definition receiversAB : JsMap (JsSet MediaStreamTrack) :=
  [("streamA", [1; 2]); ("streamB", [3])].

(** An operation keeps an observation [f] of the world when [f] reads
    the same before and after it. *)
Definition keeps {X A} (f : World -> X) (m : Async A) : Prop :=
  forall w, f (m w).2 = f w.

(** ** Further members and observations *)

(** The setter of the data channel connector for each of its slots. *)
Definition channelSetter (s : ChannelSlot)
    : IPeerConnectionDataChannelConnector -> option Callback -> Async unit :=
  match s with
  | onbufferedamountlow => DC.onBufferedAmountLow
  | onclose => DC.onClose
  | onmessage => DC.onMessage
  end.

(** The tracks whose statistics are requested in a trace, in order,
    whatever the reply. *)
Definition statsRequests (t : Trace) : list MediaStreamTrack :=
  omap (fun e =>
          match e with
          | Host (GetStats track) _ => Some track
          | _ => None
          end) t.

(** A sender map with every sender handle replaced through [f]. *)
Definition renameEntry (f : IPeerConnectionSender -> IPeerConnectionSender)
    (entry : option SenderEntry) : option SenderEntry :=
  (fun e => MkSenderEntry (entry_track e) (f <$> entry_sender e)) <$> entry.

Definition renameSenders (f : IPeerConnectionSender -> IPeerConnectionSender)
    (senders : JsMap IPeerConnectionSenderMap)
    : JsMap IPeerConnectionSenderMap :=
  (fun entry =>
     (entry.1,
      SenderMap
        (MkSenderTracks (renameEntry f (video (sm_tracks entry.2)))
           (renameEntry f (audio (sm_tracks entry.2)))))) <$> senders.

(** A step that calls [handleAnswer] with the given handler. *)
Definition handlesAnswerWith (h : Callback) (s : Step) : Prop :=
  exists answer, s = HandleAnswer answer h.

(** A browser that accepts remote descriptions but fails to generate an
    answer. *)
Definition answerless : Engine := {|
  remoteDescriptionVerdict := fun _ _ => None;
  localDescriptionVerdict := fun _ _ => None;
  answerOutcome := fun _ => inl "OperationError";
  offerOutcome := fun _ _ => inr offer0;
  statsOutcome := fun _ _ => inr None;
  parametersOutcome := fun _ _ => None;
  setParametersVerdict := fun _ _ _ => None;
  replaceTrackVerdict := fun _ _ _ => None;
  candidateVerdict := fun _ _ => None;
  addTrackOutcome := fun _ track _ => inr track;
  removeTrackVerdict := fun _ _ => None;
  dataChannelVerdict := fun _ _ => None;
  restartIceDefined := true;
  sendVerdict := fun _ _ _ => None;
  configurationVerdict := fun _ => None
|}.

(** A rollback, as a description. *)
Definition rollback0 : IPeerConnectionSessionDescription :=
  SessionDescription "rollback" "".



(** * Properties *)

Ltac async_unfold :=
  unfold mbind, Async_bind, mret, Async_ret, hostVerdict, hostOutcome,
    modify, inspect, catch_ignore in *.

Example construct_agreeable :
  PC.construct agreeable (Configuration [IceServer ["stun:a.org"] None None])
  = inr (PC.constructor (Configuration [IceServer ["stun:a.org"] None None])).
Proof. reflexivity. Qed.

Example construct_stubborn :
  PC.construct stubborn (Configuration [IceServer ["bogus"] None None])
  = inl "SyntaxError".
Proof. reflexivity. Qed.

Example createAnswer_agreeable :
  PC.createAnswer agreeable offer0 world0 =
    (Resolved answer0,
     MkWorld (PeerConnection [] None (Some offer0) (Some answer0)
                (handlers (connection world0)) [])
       []
       [Host (NewRTCPeerConnection []) Done;
        Host (AdapterDisableLog false) Done;
        Host (SetRemoteDescription offer0) Done;
        Host CreateAnswer (Description answer0);
        Host (SetLocalDescription answer0) Done]).
Proof. reflexivity. Qed.

Example createAnswer_stubborn :
  PC.createAnswer stubborn offer0 world0 =
    (Rejected "InvalidAccessError",
     log (Host (SetRemoteDescription offer0) (Failed "InvalidAccessError"))
       world0).
Proof. reflexivity. Qed.


Example createOffer_with_restart :
  trace (after (PC.createOffer agreeable (Some (OfferOptions (Some true))))
           world0) =
    [Host (NewRTCPeerConnection []) Done;
     Host (AdapterDisableLog false) Done;
     Host (CreateOffer (WebRTCOptions (Some true))) (Description offer0);
     Host (SetLocalDescription offer0) Done].
Proof. reflexivity. Qed.

Example createOffer_without_options :
  trace (after (PC.createOffer agreeable None) world0) =
    [Host (NewRTCPeerConnection []) Done;
     Host (AdapterDisableLog false) Done;
     Host (CreateOffer (WebRTCOptions None)) (Description offer0);
     Host (SetLocalDescription offer0) Done].
Proof. reflexivity. Qed.


(** C8. The priority conversion maps [Low] to "low", [High] to "high"
    and every other value to "medium". *)
Theorem convertPriority_mapping :
  convertPriority Low = "low"
  /\ convertPriority High = "high"
  /\ forall priority : MediaStreamPriority,
       priority <> Low -> priority <> High ->
       convertPriority priority = "medium".
Proof.
  split; [reflexivity |]. split; [reflexivity |].
  intros [] HLow HHigh; [contradiction | reflexivity | contradiction].
Qed.

Lemma convertPriority_mapping_witness :
  Medium <> Low /\ Medium <> High /\ convertPriority Medium = "medium".
Proof.
  split; [discriminate |]. split; [discriminate |].
  apply (proj2 (proj2 convertPriority_mapping) Medium); discriminate.
Defined.

(** The encodings written by [setEncodingParameters]. *)
Lemma tuned_encodings a b c (p : RTCPriorityType)
    (l : list RTCRtpEncodingParameters) :
  Forall (fun encoding =>
            enc_scaleResolutionDownBy encoding = Some a
            /\ enc_maxFramerate encoding = Some b
            /\ enc_maxBitrate encoding = Some c
            /\ enc_priority encoding = Some p)
    (map (fun encoding =>
            Encoding (enc_rid encoding) (enc_active encoding)
              (Some a) (Some b) (Some c) (Some p)) l).
Proof. induction l; simpl; constructor; auto. Qed.

Example setEncodingParameters_no_parameters :
  PC.setEncodingParameters stubborn 7 2%Z 30%Z 500000%Z High world0 =
    (Resolved tt, log (Host (GetParameters 7) (Parameters None)) world0).
Proof. reflexivity. Qed.

Example setEncodingParameters_two_layers :
  (after (PC.setEncodingParameters agreeable 7 2%Z 30%Z 500000%Z High)
     world0).(trace) !! 3 =
    Some (Host (SetParameters 7
                  (SendParameters "tx1"
                     [Encoding (Some "h") true (Some 2%Z) (Some 30%Z)
                        (Some 500000%Z) (Some "high");
                      Encoding (Some "l") false (Some 2%Z) (Some 30%Z)
                        (Some 500000%Z) (Some "high")])) Done).
Proof. reflexivity. Qed.

(** C6. [setEncodingParameters] reads the sender's parameters.  When
    there are none it stops there: nothing is committed, neither the
    connection nor any channel changes, and it returns normally.
    Otherwise it commits a parameter set in which every encoding layer
    carries the four given values (the priority converted), the layers
    being otherwise the ones read; whether the browser accepts or
    rejects the commit, the operation returns normally. *)
Theorem setEncodingParameters_best_effort (E : Engine)
    (sender : IPeerConnectionSender)
    (scaleResolutionDownBy maxFramerate maxBitrate : number)
    (priority : MediaStreamPriority) (w : World) :
  match parametersOutcome E (trace w) sender with
  | None =>
      PC.setEncodingParameters E sender scaleResolutionDownBy maxFramerate
        maxBitrate priority w =
        (Resolved tt, log (Host (GetParameters sender) (Parameters None)) w)
  | Some parameters =>
      exists committed reply w',
        PC.setEncodingParameters E sender scaleResolutionDownBy maxFramerate
          maxBitrate priority w = (Resolved tt, w')
        /\ trace w' = trace w ++
             [Host (GetParameters sender) (Parameters (Some parameters));
              Host (SetParameters sender committed) reply]
        /\ (reply = Done \/ exists e, reply = Failed e)
        /\ connection w' = connection w
        /\ channels w' = channels w
        /\ transactionId committed = transactionId parameters
        /\ enc_rid <$> encodings committed = enc_rid <$> encodings parameters
        /\ enc_active <$> encodings committed
             = enc_active <$> encodings parameters
        /\ Forall (fun encoding =>
                     enc_scaleResolutionDownBy encoding
                       = Some scaleResolutionDownBy
                     /\ enc_maxFramerate encoding = Some maxFramerate
                     /\ enc_maxBitrate encoding = Some maxBitrate
                     /\ enc_priority encoding
                          = Some (convertPriority priority))
             (encodings committed)
  end.
Proof.
  unfold PC.setEncodingParameters, host_getParameters, host_setParameters.
  async_unfold.
  destruct (parametersOutcome E (trace w) sender) as [parameters|] eqn:Hread;
    [| reflexivity].
  set (committed := SendParameters _ _).
  exists committed.
  destruct (setParametersVerdict E
              (trace (log (Host (GetParameters sender)
                             (Parameters (Some parameters))) w))
              sender committed) as [e|] eqn:Hcommit.
  - exists (Failed e). eexists. split; [reflexivity |].
    simpl. rewrite <- app_assoc. repeat split; eauto.
    + subst committed; simpl. rewrite <- list_fmap_compose.
      now apply list_fmap_ext.
    + subst committed; simpl. rewrite <- list_fmap_compose.
      now apply list_fmap_ext.
    + apply tuned_encodings.
  - exists Done. eexists. split; [reflexivity |].
    simpl. rewrite <- app_assoc. repeat split; eauto.
    + subst committed; simpl. rewrite <- list_fmap_compose.
      now apply list_fmap_ext.
    + subst committed; simpl. rewrite <- list_fmap_compose.
      now apply list_fmap_ext.
    + apply tuned_encodings.
Qed.

(** X1. [convertStatsReport] lists the values of the report in the
    order of the report: one entry per entry of the report, none left
    out, none added, the keys dropped. *)
Lemma convertStatsReport_values (report : RTCStatsReport) :
  convertStatsReport report = report.*2.
Proof.
  unfold convertStatsReport.
  enough (H : forall stats,
             foldl (fun stats entry => stats ++ [entry.2]) stats report
             = stats ++ report.*2) by apply (H []).
  induction report as [|entry report IH]; intros stats; simpl.
  - now rewrite app_nil_r.
  - rewrite IH. now rewrite <- app_assoc.
Qed.

Example replaceTrack_sendonly :
  transceivers (connection (after (PC.replaceTrack agreeable 3 7)
                              world_transceivers)) =
    [Transceiver (Some "0") 7 sendrecv;
     Transceiver (Some "1") 8 recvonly;
     Transceiver None 9 inactive].
Proof. reflexivity. Qed.

Example replaceTrack_rejected :
  PC.replaceTrack stubborn 3 7 world_transceivers =
    (Rejected "InvalidModificationError",
     log (Host (ReplaceTrack 7 3) (Failed "InvalidModificationError"))
       world_transceivers).
Proof. reflexivity. Qed.

(** The [forEach] of [replaceTrack] over the transceivers. *)
Lemma redirect_transceivers (rtcSender : RTCRtpSender)
    (l : list RTCRtpTransceiver) :
  let l' :=
    map (fun transceiver =>
           if decide (tr_sender transceiver = rtcSender)
           then setDirection sendrecv transceiver else transceiver) l in
  Forall2 (fun before now =>
             tr_mid now = tr_mid before
             /\ tr_sender now = tr_sender before
             /\ tr_direction now =
                  (if decide (tr_sender before = rtcSender) then sendrecv
                   else tr_direction before)) l l'
  /\ Forall (fun transceiver =>
               tr_sender transceiver = rtcSender ->
               tr_direction transceiver = sendrecv) l'.
Proof.
  induction l as [|t l [IH2 IH1]]; simpl.
  - split; constructor.
  - split; constructor; try assumption.
    + destruct (decide (tr_sender t = rtcSender)); simpl; auto.
    + destruct (decide (tr_sender t = rtcSender)); simpl; auto.
      intros; contradiction.
Qed.

(** C5. When the browser accepts the swap of [replaceTrack], the
    connector reads the transceivers and every transceiver whose sender
    is the given sender ends with direction 'sendrecv', whatever its
    direction was; the other transceivers, and the sender and mid of
    every transceiver, are as before.  When the browser rejects the swap,
    the rejection is passed on and no transceiver is touched. *)
Theorem replaceTrack_forces_sendrecv (E : Engine) (track : MediaStreamTrack)
    (sender : IPeerConnectionSender) (w : World) :
  match PC.replaceTrack E track sender w with
  | (Resolved _, w') =>
      trace w' = trace w ++
        [Host (ReplaceTrack sender track) Done;
         Host GetTransceivers (Transceivers (transceivers (connection w)))]
      /\ Forall (fun transceiver =>
                   tr_sender transceiver = sender ->
                   tr_direction transceiver = sendrecv)
           (transceivers (connection w'))
      /\ Forall2 (fun before now =>
                    tr_mid now = tr_mid before
                    /\ tr_sender now = tr_sender before
                    /\ tr_direction now =
                         (if decide (tr_sender before = sender) then sendrecv
                          else tr_direction before))
           (transceivers (connection w)) (transceivers (connection w'))
  | (Rejected e, w') =>
      trace w' = trace w ++ [Host (ReplaceTrack sender track) (Failed e)]
      /\ connection w' = connection w
  end.
Proof.
  unfold PC.replaceTrack, host_replaceTrack, host_getTransceivers.
  async_unfold.
  destruct (replaceTrackVerdict E (trace w) sender track) as [e|]; simpl.
  - split; reflexivity.
  - destruct (redirect_transceivers sender (transceivers (connection w)))
      as [H2 H1].
    split; [now rewrite <- app_assoc |]. split; assumption.
Qed.

Lemma replaceTrack_forces_sendrecv_witness :
  Forall (fun transceiver =>
            tr_sender transceiver = 7 -> tr_direction transceiver = sendrecv)
    (transceivers (connection (after (PC.replaceTrack agreeable 3 7)
                                 world_transceivers))).
Proof.
  exact (proj1 (proj2
           (replaceTrack_forces_sendrecv agreeable 3 7 world_transceivers))).
Defined.

(** ** Frame rules

    An observation that no browser call and no collector call changes
    is kept by every operation built from such calls. *)

Section Frames.

Context {X : Type} (f : World -> X).
Hypothesis f_log : forall e w, isInvoked e = false -> f (log e w) = f w.

Lemma keeps_ret {A} (a : A) : keeps f (mret a : Async A).
Proof. intros w. reflexivity. Qed.

Lemma keeps_bind {A B} (m : Async A) (k : A -> Async B) :
  keeps f m -> (forall a, keeps f (k a)) -> keeps f (m ≫= k).
Proof.
  intros Hm Hk w. unfold mbind, Async_bind.
  specialize (Hm w). destruct (m w) as [[a|e] w1]; simpl in *.
  - now rewrite Hk.
  - assumption.
Qed.

Lemma keeps_modify (g : World -> World) :
  (forall w, f (g w) = f w) -> keeps f (modify g).
Proof. intros Hg w. apply Hg. Qed.

Lemma keeps_inspect {A} (g : World -> A) : keeps f (inspect g).
Proof. intros w. reflexivity. Qed.

Lemma keeps_catch (m : Async unit) : keeps f m -> keeps f (catch_ignore m).
Proof.
  intros Hm w. unfold catch_ignore. specialize (Hm w).
  now destruct (m w) as [[a|e] w1].
Qed.

Lemma keeps_hostVerdict c verdict effect :
  (forall w, f (effect w) = f w) -> keeps f (hostVerdict c verdict effect).
Proof.
  intros He w. unfold hostVerdict.
  destruct (verdict (trace w)); simpl; rewrite f_log; auto.
Qed.

Lemma keeps_hostOutcome {A} c (outcome : Trace -> DOMException + A) reply :
  keeps f (hostOutcome c outcome reply).
Proof.
  intros w. unfold hostOutcome.
  destruct (outcome (trace w)); simpl; rewrite f_log; auto.
Qed.

Lemma keeps_createAnswer E : keeps f (host_createAnswer E).
Proof.
  intros w. unfold host_createAnswer.
  destruct (pendingRemoteDescription (connection w)) as [sd|];
    [case_decide |]; try (simpl; now rewrite f_log).
  apply keeps_hostOutcome.
Qed.

Lemma keeps_getStats E track : keeps f (host_getStats E track).
Proof. apply keeps_hostOutcome. Qed.

Lemma keeps_getParameters E s : keeps f (host_getParameters E s).
Proof. intros w. unfold host_getParameters. simpl. now rewrite f_log. Qed.

Lemma keeps_getTransceivers : keeps f host_getTransceivers.
Proof. intros w. unfold host_getTransceivers. simpl. now rewrite f_log. Qed.

Lemma keeps_collector collector stats streamId :
  keeps f (PC.call_collector collector stats streamId).
Proof. intros w. unfold PC.call_collector, modify. simpl. now rewrite f_log. Qed.

Lemma keeps_receiverTracksStats E tracks stats :
  keeps f (PC.receiverTracksStats E tracks stats).
Proof.
  revert stats. induction tracks as [|track tracks IH]; intros stats; simpl.
  - apply keeps_ret.
  - apply keeps_bind; [apply keeps_getStats | intros a; apply IH].
Qed.

Lemma keeps_collect_or_skip collector stats streamId :
  keeps f (if decide (length stats = 0) then mret tt
           else PC.call_collector collector stats streamId).
Proof. case_decide; [apply keeps_ret | apply keeps_collector]. Qed.

Lemma keeps_collectReceiversStats E receivers collector :
  keeps f (PC.collectReceiversStats E receivers collector).
Proof.
  induction receivers as [|[streamId tracks] receivers IH]; simpl.
  - apply keeps_ret.
  - apply keeps_bind; [apply keeps_receiverTracksStats | intros stats].
    apply keeps_bind; [apply keeps_collect_or_skip | intros _; apply IH].
Qed.

Lemma keeps_collectSendersStats E senders collector :
  keeps f (PC.collectSendersStats E senders collector).
Proof.
  induction senders as [|[streamId stream] senders IH]; simpl.
  - apply keeps_ret.
  - apply keeps_bind.
    { repeat case_match; try apply keeps_ret.
      apply keeps_bind; [apply keeps_getStats | intros; apply keeps_ret]. }
    intros stats. apply keeps_bind.
    { repeat case_match; try apply keeps_ret.
      apply keeps_bind; [apply keeps_getStats | intros; apply keeps_ret]. }
    intros stats'.
    apply keeps_bind; [apply keeps_collect_or_skip | intros _; apply IH].
Qed.

Lemma keeps_setEncodingParameters E sender a b c p :
  keeps f (PC.setEncodingParameters E sender a b c p).
Proof.
  unfold PC.setEncodingParameters.
  apply keeps_bind; [apply keeps_getParameters | intros [parameters|]].
  - apply keeps_catch, keeps_hostVerdict. reflexivity.
  - apply keeps_ret.
Qed.

End Frames.

Lemma keeps_after {X A} (f : World -> X) (m : Async A) w :
  keeps f m -> f (after m w) = f w.
Proof. intros H. apply H. Qed.

Lemma after_bind {A B} (m : Async A) (k : A -> Async B) w :
  after (m ≫= k) w =
    match m w with
    | (Resolved a, w1) => after (k a) w1
    | (Rejected _, w1) => w1
    end.
Proof.
  unfold after, mbind, Async_bind. now destruct (m w) as [[a|e] w1].
Qed.

(** Decomposes an operation along its binds and closes the leaves the
    frame rules cover; [H] is the proof that logging keeps the
    observation. *)
Ltac frame H :=
  repeat
    match goal with
    | |- keeps _ (mret _) => apply (keeps_ret _ H)
    | |- keeps _ (inspect _) => apply keeps_inspect
    | |- keeps _ (host_getStats _ _) => apply (keeps_getStats _ H)
    | |- keeps _ (host_createAnswer _) => apply (keeps_createAnswer _ H)
    | |- keeps _ (host_getParameters _ _) => apply (keeps_getParameters _ H)
    | |- keeps _ host_getTransceivers => apply (keeps_getTransceivers _ H)
    | |- keeps _ (PC.call_collector _ _ _) => apply (keeps_collector _ H)
    | |- keeps _ (PC.collectReceiversStats _ _ _) =>
        apply (keeps_collectReceiversStats _ H)
    | |- keeps _ (PC.collectSendersStats _ _ _) =>
        apply (keeps_collectSendersStats _ H)
    | |- keeps _ (PC.setEncodingParameters _ _ _ _ _ _) =>
        apply (keeps_setEncodingParameters _ H)
    | |- keeps _ (hostOutcome _ _ _) => apply (keeps_hostOutcome _ H)
    | |- keeps _ (catch_ignore _) => apply keeps_catch
    | |- keeps _ (_ ≫= _) => apply keeps_bind; [| intros ?]
    | |- keeps _ (hostVerdict _ _ _) =>
        apply (keeps_hostVerdict _ H); intros ?
    | |- keeps _ (modify _) => apply keeps_modify; intros ?
    | |- keeps _ (match ?x with _ => _ end) => destruct x
    | |- keeps _ (fun w => (Rejected _, w)) => intros ?; reflexivity
    end.

(** Closes a goal that holds whatever the type of the description
    committed by [setRemote] or [setLocal] is. *)
Ltac by_type :=
  first [ reflexivity
        | subst; simpl; unfold setRemote, setLocal, withRemote; simpl;
          repeat case_decide; reflexivity ].

#[global] Arguments setRemote : simpl never.
#[global] Arguments setLocal : simpl never.

Lemma handlers_setRemote sd c : handlers (setRemote sd c) = handlers c.
Proof. by_type. Qed.

Lemma handlers_setLocal sd c : handlers (setLocal sd c) = handlers c.
Proof. by_type. Qed.

Lemma transceivers_setRemote sd c :
  transceivers (setRemote sd c) = transceivers c.
Proof. by_type. Qed.

Lemma transceivers_setLocal sd c :
  transceivers (setLocal sd c) = transceivers c.
Proof. by_type. Qed.

Lemma localDescription_setRemote sd c :
  localDescription (setRemote sd c) = localDescription c.
Proof. by_type. Qed.

Ltac unfold_methods :=
  unfold PC.onCandidate, PC.onConnectionStateChange, PC.onDataChannel,
    PC.onGatheringStateChange, PC.onHandshakeStateChange, PC.onTrack,
    PC.addCandidate, PC.addTrack, PC.close,
    PC.createAnswer, PC.createDataChannel, PC.createOffer, PC.handleAnswer,
    PC.removeTrack, PC.replaceTrack, PC.restartHandshake, PC.set_attribute,
    DC.set_bufferedAmountLowThreshold, DC.onBufferedAmountLow, DC.onClose,
    DC.onMessage, DC.close, DC.send, DC.withChannel,
    host_setRemoteDescription, host_setLocalDescription, host_setThreshold,
    host_createOffer, host_replaceTrack, host_addIceCandidate, host_addTrack,
    host_removeTrack, host_close, host_channelClose, host_channelSend in *.

Section StepFacts.

Context (E : Engine).

Lemma run_cons s steps w : run E (s :: steps) w = run E steps (step E s w).
Proof. reflexivity. Qed.

Lemma keeps_restartIce {X} (f : World -> X) :
  (forall e w, isInvoked e = false -> f (log e w) = f w) ->
  keeps f (host_restartIce E).
Proof.
  intros H w. unfold host_restartIce.
  destruct (restartIceDefined E); simpl; [now rewrite H | reflexivity].
Qed.

Lemma keeps_createDataChannel {X} (f : World -> X) label :
  (forall e w, isInvoked e = false -> f (log e w) = f w) ->
  (forall w, f (MkWorld (connection w) (channels w ++ [newChannel label])
                  (trace w)) = f w) ->
  keeps f (host_createDataChannel E label).
Proof.
  intros H Hch w. unfold host_createDataChannel.
  destruct (dataChannelVerdict E (trace w) label); simpl; rewrite H; auto.
Qed.

(** The fired events leave the connection and the channel handlers
    alone. *)
Lemma connection_fire s ev w : connection (fire s ev w) = connection w.
Proof.
  unfold fire, applyHandler. now repeat case_match.
Qed.

Lemma channels_fire s ev w : channels (fire s ev w) = channels w.
Proof.
  unfold fire, applyHandler. now repeat case_match.
Qed.

Lemma connection_fireChannel k s ev w :
  connection (fireChannel k s ev w) = connection w.
Proof. unfold fireChannel. now case_match. Qed.

Lemma channels_fireChannel k s ev w :
  channels (fireChannel k s ev w) = channels w.
Proof. unfold fireChannel. now case_match. Qed.

Lemma remoteDescription_setLocal sd c :
  remoteDescription (setLocal sd c) = remoteDescription c.
Proof.
  unfold remoteDescription, setLocal; simpl.
  case_decide; reflexivity.
Qed.

(** The remote description after an accepted commit: the description
    committed, or for a rollback the current remote description. *)
Lemma remoteDescription_setRemote sd c :
  remoteDescription (setRemote sd c) =
    if decide (sd_type sd = "rollback") then currentRemoteDescription c
    else Some sd.
Proof.
  unfold remoteDescription, setRemote, withRemote.
  now repeat case_decide.
Qed.

(** A step changes the remote description only by an accepted commit
    of the description it submits. *)
Lemma step_remoteDescription s w :
  remoteDescription (connection (step E s w)) =
    match submitsRemote s with
    | Some sd =>
        match remoteDescriptionVerdict E (trace w) sd with
        | None => remoteDescription (setRemote sd (connection w))
        | Some _ => remoteDescription (connection w)
        end
    | None => remoteDescription (connection w)
    end.
Proof.
  set (f := fun w : World => remoteDescription (connection w)).
  assert (H : forall e w, isInvoked e = false -> f (log e w) = f w)
    by reflexivity.
  assert (Hlocal : forall sd w, f (onConnection (setLocal sd) w) = f w)
    by (intros; apply remoteDescription_setLocal).
  change (f (step E s w) =
            match submitsRemote s with
            | Some sd =>
                match remoteDescriptionVerdict E (trace w) sd with
                | None => f (onConnection (setRemote sd) w)
                | Some _ => f w
                end
            | None => f w
            end).
  destruct s; simpl submitsRemote; simpl step;
    try (apply keeps_after; unfold_methods; frame H;
         first [reflexivity | apply Hlocal]).
  - unfold PC.createAnswer. rewrite after_bind.
    unfold host_setRemoteDescription, hostVerdict.
    destruct (remoteDescriptionVerdict E (trace w) offer); [reflexivity |].
    rewrite keeps_after; [reflexivity |].
    unfold_methods. frame H. apply Hlocal.
  - apply keeps_after. unfold PC.createDataChannel. frame H.
    apply keeps_createDataChannel; [exact H | reflexivity].
  - unfold PC.handleAnswer. rewrite after_bind.
    unfold host_setRemoteDescription, hostVerdict.
    destruct (remoteDescriptionVerdict E (trace w) answer); [reflexivity |].
    rewrite keeps_after; [reflexivity |].
    unfold_methods. frame H. reflexivity.
  - apply keeps_after, keeps_restartIce, H.
  - subst f; simpl. now rewrite connection_fire.
  - subst f; simpl. now rewrite connection_fireChannel.
  - unfold incomingChannel. subst f; simpl. now rewrite connection_fire.
Qed.

End StepFacts.

Example canAddCandidates_after_rejections :
  PC.canAddCandidates
    (run stubborn [DoCreateAnswer offer0; HandleAnswer answer0 5] world0)
  = false.
Proof. reflexivity. Qed.

Example canAddCandidates_after_handleAnswer :
  PC.canAddCandidates
    (run agreeable [DoCreateOffer None; HandleAnswer answer0 5] world0)
  = true.
Proof. reflexivity. Qed.

Example canAddCandidates_after_rollback :
  PC.canAddCandidates (run agreeable [HandleAnswer rollback0 5] world0)
  = false.
Proof. reflexivity. Qed.

Example canAddCandidates_offer_then_rollback :
  PC.canAddCandidates
    (run agreeable [HandleAnswer offer0 5; HandleAnswer rollback0 5] world0)
  = false.
Proof. reflexivity. Qed.

Example canAddCandidates_answered_then_rollback :
  PC.canAddCandidates
    (run agreeable [DoCreateAnswer offer0; HandleAnswer rollback0 5] world0)
  = true.
Proof. reflexivity. Qed.

Section RemoteDescription.

Context (E : Engine).









End RemoteDescription.




Section NegotiationHandler.

Context (E : Engine).

Lemma keeps_incomingChannel {X} (f : World -> X) label w :
  (forall w1 w2, connection w1 = connection w2 -> f w1 = f w2) ->
  f (incomingChannel label w) = f w.
Proof.
  intros H. apply H. unfold incomingChannel. now rewrite connection_fire.
Qed.

(** Only [handleAnswer] writes the attribute [onnegotiationneeded]. *)
Lemma step_onnegotiationneeded s w :
  (forall answer h, s <> HandleAnswer answer h) ->
  handlers (connection (step E s w)) onnegotiationneeded
  = handlers (connection w) onnegotiationneeded.
Proof.
  intros Hs.
  set (f := fun w : World => handlers (connection w) onnegotiationneeded).
  assert (H : forall e w, isInvoked e = false -> f (log e w) = f w)
    by reflexivity.
  change (f (step E s w) = f w).
  destruct s; simpl;
    try (apply keeps_after; unfold_methods; frame H; subst f; by_type).
  - apply keeps_after. unfold PC.createDataChannel. frame H.
    apply keeps_createDataChannel; [exact H | reflexivity].
  - now destruct (Hs answer negotiationHandler).
  - apply keeps_after, keeps_restartIce, H.
  - subst f; simpl. now rewrite connection_fire.
  - subst f; simpl. now rewrite connection_fireChannel.
  - apply keeps_incomingChannel. intros w1 w2 Hc. subst f; simpl.
    now rewrite Hc.
Qed.

(** What [handleAnswer] does, in full. *)
Lemma handleAnswer_spec answer negotiationHandler w :
  PC.handleAnswer E answer negotiationHandler w =
    match remoteDescriptionVerdict E (trace w) answer with
    | Some e =>
        (Rejected e, log (Host (SetRemoteDescription answer) (Failed e)) w)
    | None =>
        let w1 := log (Host (SetRemoteDescription answer) Done)
                    (onConnection (setRemote answer) w) in
        match handlers (connection w) onnegotiationneeded with
        | Some _ => (Resolved tt, w1)
        | None =>
            (Resolved tt,
             onConnection
               (setHandler onnegotiationneeded
                  (Some (Direct negotiationHandler))) w1)
        end
    end.
Proof.
  unfold PC.handleAnswer, host_setRemoteDescription, PC.set_attribute.
  async_unfold.
  destruct (remoteDescriptionVerdict E (trace w) answer); simpl;
    [reflexivity |].
  rewrite handlers_setRemote.
  now destruct (handlers (connection w) onnegotiationneeded).
Qed.

(** Once a handler is registered for renegotiation, no history of the
    connector removes or replaces it. *)
Lemma onnegotiationneeded_stable steps w h0 :
  handlers (connection w) onnegotiationneeded = Some h0 ->
  handlers (connection (run E steps w)) onnegotiationneeded = Some h0.
Proof.
  revert w. induction steps as [|s steps IH]; intros w Hw; [exact Hw |].
  rewrite run_cons. apply IH.
  destruct s; try (rewrite step_onnegotiationneeded; [exact Hw | congruence]).
  simpl. unfold after. rewrite handleAnswer_spec.
  destruct (remoteDescriptionVerdict E (trace w) answer); simpl;
    [exact Hw |].
  rewrite Hw. simpl. now rewrite handlers_setRemote.
Qed.

End NegotiationHandler.

Example handleAnswer_twice :
  handlers (connection (run agreeable
                          [HandleAnswer answer0 5; HandleAnswer answer0 6]
                          world0)) onnegotiationneeded
  = Some (Direct 5).
Proof. reflexivity. Qed.

(** C4. [handleAnswer] submits the answer as the remote description.
    When the browser accepts it, the answer is the remote description
    (for a rollback, which the browser accepts too, the remote
    description is back to the one last negotiated) and
    [negotiationHandler] is stored in [onnegotiationneeded] only if
    that attribute holds nothing; a handler already there stays, and no
    other attribute changes.  When the browser rejects the answer, the
    rejection is passed on and the connection is unchanged.
    In particular, once a call has registered its handler, whatever
    follows (a second [handleAnswer] with another handler included)
    leaves that first handler registered, and a renegotiation-needed
    event calls it and nothing else. *)
Theorem handleAnswer_first_handler_wins (E : Engine)
    (answer : IPeerConnectionSessionDescription)
    (negotiationHandler : Callback) (w : World) :
  match PC.handleAnswer E answer negotiationHandler w with
  | (Resolved _, w1) =>
      trace w1 = trace w ++ [Host (SetRemoteDescription answer) Done]
      /\ remoteDescription (connection w1) =
           (if decide (sd_type answer = "rollback")
            then currentRemoteDescription (connection w)
            else Some answer)
      /\ handlers (connection w1) onnegotiationneeded =
           match handlers (connection w) onnegotiationneeded with
           | Some registered => Some registered
           | None => Some (Direct negotiationHandler)
           end
      /\ (forall s, s <> onnegotiationneeded ->
                    handlers (connection w1) s = handlers (connection w) s)
      /\ match handlers (connection w) onnegotiationneeded with
         | Some _ => True
         | None =>
             forall (steps : list Step) (ev : NativeEvent),
               let w2 := run E steps w1 in
               handlers (connection w2) onnegotiationneeded
                 = Some (Direct negotiationHandler)
               /\ fire onnegotiationneeded ev w2 =
                    log (Invoked (OfConnection onnegotiationneeded)
                           negotiationHandler (Native ev)) w2
         end
  | (Rejected e, w1) =>
      trace w1 = trace w ++ [Host (SetRemoteDescription answer) (Failed e)]
      /\ connection w1 = connection w
  end.
Proof.
  rewrite handleAnswer_spec.
  destruct (remoteDescriptionVerdict E (trace w) answer) as [e|]; simpl.
  { split; reflexivity. }
  destruct (handlers (connection w) onnegotiationneeded) as [h0|] eqn:Hslot;
    simpl.
  - rewrite handlers_setRemote, Hslot.
    repeat split; auto using remoteDescription_setRemote.
  - rewrite handlers_setRemote.
    repeat split; auto using remoteDescription_setRemote.
    + exact (remoteDescription_setRemote _ _).
    + intros s Hs. now rewrite decide_False.
    + now apply onnegotiationneeded_stable.
    + unfold fire. rewrite (onnegotiationneeded_stable E steps _
                              (Direct negotiationHandler)); reflexivity.
Qed.

Lemma handleAnswer_first_handler_wins_witness :
  let ev := BrowserEvent "negotiationneeded" None in
  let w2 := run agreeable [DoCreateOffer None; HandleAnswer answer0 6]
              (after (PC.handleAnswer agreeable answer0 5) world0) in
  handlers (connection w2) onnegotiationneeded = Some (Direct 5)
  /\ fire onnegotiationneeded ev w2 =
       log (Invoked (OfConnection onnegotiationneeded) 5 (Native ev)) w2.
Proof.
  exact (proj2 (proj2 (proj2 (proj2
           (handleAnswer_first_handler_wins agreeable answer0 5 world0))))
           [DoCreateOffer None; HandleAnswer answer0 6]
           (BrowserEvent "negotiationneeded" None)).
Defined.

(** ** Callback slots *)

Section Slots.

Context (E : Engine).

Lemma invocations_app slot t1 t2 :
  invocations slot (t1 ++ t2) = invocations slot t1 ++ invocations slot t2.
Proof. apply omap_app. Qed.

Lemma invocations_log slot e w :
  isInvoked e = false ->
  invocations slot (trace (log e w)) = invocations slot (trace w).
Proof.
  intros He. simpl. rewrite invocations_app.
  destruct e; try discriminate; simpl; apply app_nil_r.
Qed.

Lemma invocations_fire slot c ev w :
  invocations slot (trace (fire c ev w)) =
    invocations slot (trace w) ++
      (if bool_decide (OfConnection c = slot)
       then option_list (registered w slot) else []).
Proof.
  unfold fire, applyHandler.
  case_bool_decide as Hslot.
  - subst slot. simpl.
    destruct (handlers (connection w) c) as [[cb|cb]|]; simpl;
      rewrite ?invocations_app; simpl; rewrite ?decide_True by reflexivity;
      rewrite ?app_nil_r; reflexivity.
  - destruct (handlers (connection w) c) as [[cb|cb]|]; simpl;
      rewrite ?invocations_app; simpl; rewrite ?decide_False by assumption;
      rewrite ?app_nil_r; reflexivity.
Qed.

Lemma step_invocations slot s w :
  invocations slot (trace (step E s w)) =
    invocations slot (trace w) ++
      (if firesOn slot s then option_list (registered w slot) else []).
Proof.
  set (f := fun w : World => invocations slot (trace w)).
  assert (H : forall e w, isInvoked e = false -> f (log e w) = f w)
    by (intros; now apply invocations_log).
  destruct s; simpl firesOn; rewrite ?app_nil_r;
    try (change (f (step E s w) = f w)); simpl step;
    try (apply (keeps_after f); unfold_methods; frame H;
         first [reflexivity | now apply H]).
  - apply (keeps_after f). unfold PC.createDataChannel. frame H.
    apply keeps_createDataChannel; [exact H | reflexivity].
  - apply (keeps_after f), keeps_restartIce, H.
  - apply invocations_fire.
  - unfold fireChannel. case_bool_decide as Hslot.
    + subst slot. simpl. destruct (channelHandler w k s) as [cb|]; simpl;
        rewrite ?invocations_app; simpl; rewrite ?decide_True by reflexivity;
        rewrite ?app_nil_r; reflexivity.
    + destruct (channelHandler w k s) as [cb|]; simpl;
        rewrite ?invocations_app; simpl; rewrite ?decide_False by assumption;
        rewrite ?app_nil_r; reflexivity.
  - unfold incomingChannel. rewrite invocations_fire. simpl.
    case_bool_decide as Hslot; [| reflexivity]. now subst slot.
Qed.

Lemma handlers_setHandler_ne c c' h conn :
  c <> c' -> handlers (setHandler c' h conn) c = handlers conn c.
Proof. intros Hc. simpl. now rewrite decide_False. Qed.

Lemma channelHandler_set_ne k c k' c' cb w :
  OfChannel k' c' <> OfChannel k c ->
  channelHandler (DC.onChannel k' (DC.setChannelHandler c' cb) w) k c
  = channelHandler w k c.
Proof.
  intros Hne. unfold channelHandler, DC.onChannel; simpl.
  destruct (decide (k' = k)) as [->|Hk].
  - rewrite list_lookup_alter_eq. destruct (channels w !! k); simpl; auto.
    rewrite decide_False; congruence.
  - now rewrite list_lookup_alter_ne.
Qed.

Lemma channelHandler_set_eq k c cb w :
  k < length (channels w) ->
  channelHandler (DC.onChannel k (DC.setChannelHandler c cb) w) k c = cb.
Proof.
  intros Hk. unfold channelHandler, DC.onChannel; simpl.
  rewrite list_lookup_alter_eq.
  destruct (lookup_lt_is_Some_2 _ _ Hk) as [ch ->]; simpl.
  now rewrite decide_True.
Qed.

Lemma channelHandler_set_null k c w :
  channelHandler (DC.onChannel k (DC.setChannelHandler c None) w) k c = None.
Proof.
  unfold channelHandler, DC.onChannel; simpl.
  rewrite list_lookup_alter_eq.
  destruct (channels w !! k); simpl; [now rewrite decide_True | reflexivity].
Qed.

Lemma channelHandler_newChannel k c label w :
  channelHandler
    (MkWorld (connection w) (channels w ++ [newChannel label]) (trace w)) k c
  = channelHandler w k c.
Proof.
  unfold channelHandler; simpl.
  destruct (decide (k < length (channels w))) as [Hk|Hk].
  - now rewrite lookup_app_l.
  - rewrite lookup_app_r by lia. rewrite (lookup_ge_None_2 (channels w)) by lia.
    now destruct (k - length (channels w)) as [|[|n]].
Qed.

(** A step that is not an assignment to a slot leaves the function
    registered there as it is. *)
Lemma step_registered_other slot s w :
  slot <> OfConnection onnegotiationneeded ->
  assignsTo slot s = false ->
  registered (step E s w) slot = registered w slot.
Proof.
  intros Hneg Hs. destruct slot as [c|k c]; simpl.
  - set (f := fun w : World => handlers (connection w) c).
    assert (H : forall e w, isInvoked e = false -> f (log e w) = f w)
      by reflexivity.
    change (handlerCallback <$> f (step E s w) = handlerCallback <$> f w).
    f_equal.
    destruct s; unfold assignsTo in Hs; simpl in Hs;
      try (destruct self as [[k'|]]; simpl in Hs);
      try (apply bool_decide_eq_false in Hs); simpl step;
      try (apply (keeps_after f); unfold_methods; simpl; frame H;
           first [ reflexivity
                 | apply handlers_setHandler_ne; congruence
                 | subst f; by_type ]).
    + apply (keeps_after f). unfold PC.createDataChannel. frame H.
      apply keeps_createDataChannel; [exact H | reflexivity].
    + apply (keeps_after f), keeps_restartIce, H.
    + subst f; simpl. now rewrite connection_fire.
    + subst f; simpl. now rewrite connection_fireChannel.
    + apply keeps_incomingChannel. intros w1 w2 Hc. subst f; simpl.
      now rewrite Hc.
  - set (f := fun w : World => channelHandler w k c).
    assert (H : forall e w, isInvoked e = false -> f (log e w) = f w)
      by reflexivity.
    change (f (step E s w) = f w).
    destruct s; unfold assignsTo in Hs; simpl in Hs;
      try (destruct self as [[k'|]]; simpl in Hs);
      try (apply bool_decide_eq_false in Hs); simpl step;
      try (apply (keeps_after f); unfold_methods; simpl; frame H;
           first [ reflexivity
                 | apply channelHandler_set_ne; congruence
                 | subst f; by_type ]).
    + apply (keeps_after f). unfold PC.createDataChannel. frame H.
      apply keeps_createDataChannel; [exact H |].
      intros w0. apply channelHandler_newChannel.
    + apply (keeps_after f), keeps_restartIce, H.
    + subst f; simpl. unfold channelHandler. now rewrite channels_fire.
    + subst f; simpl. unfold channelHandler. now rewrite channels_fireChannel.
    + subst f; simpl. unfold incomingChannel, channelHandler.
      rewrite channels_fire. apply channelHandler_newChannel.
Qed.

Lemma assigns_public s slot cb :
  assigns s = Some (slot, cb) ->
  slot <> OfConnection onnegotiationneeded /\ firesOn slot s = false.
Proof.
  destruct s; simpl; intros Hs; try discriminate;
    try (destruct self as [[k|]]; simpl in Hs; try discriminate);
    simplify_eq; split; (discriminate || reflexivity).
Qed.

(** An assignment registers the function assigned; the assignment of
    [null] leaves nothing registered. *)
Lemma step_registered_assigned s slot cb w :
  assigns s = Some (slot, cb) ->
  slotExists w slot \/ cb = None ->
  registered (step E s w) slot = cb.
Proof.
  intros Hs Hex.
  destruct s; simpl in Hs; try discriminate;
    try (destruct self as [[k|]]; simpl in Hs; try discriminate);
    simplify_eq; simpl in *.
  1-6: unfold after; unfold_methods; async_unfold; simpl;
       now destruct cb.
  all: unfold after; unfold_methods; async_unfold; simpl;
       destruct Hex as [Hk| ->];
       [ now apply channelHandler_set_eq |].
  all: apply channelHandler_set_null.
Qed.

(** As long as no step assigns a slot, the function registered there
    stays, and the events on the slot call that function, once each. *)
Lemma run_registered slot cb steps w :
  slot <> OfConnection onnegotiationneeded ->
  registered w slot = cb ->
  Forall (fun s => assignsTo slot s = false) steps ->
  registered (run E steps w) slot = cb
  /\ invocations slot (trace (run E steps w)) =
       invocations slot (trace w) ++
         match cb with
         | Some callback => replicate (eventsOn slot steps) callback
         | None => []
         end.
Proof.
  intros Hneg. revert w.
  induction steps as [|s steps IH]; intros w Hw Hsteps.
  - simpl. split; [assumption |]. destruct cb; simpl; now rewrite app_nil_r.
  - apply Forall_cons in Hsteps as [Hs Hsteps]. rewrite run_cons.
    destruct (IH (step E s w)) as [IH1 IH2]; [| assumption |].
    { now rewrite step_registered_other. }
    split; [assumption |].
    rewrite IH2, step_invocations, Hw, <- app_assoc. f_equal.
    simpl eventsOn. destruct (firesOn slot s), cb; reflexivity.
Qed.

End Slots.

Example onTrack_then_null :
  trace (run agreeable
           [SetOnTrack (Some 4); Fire ontrack (BrowserEvent "track" None);
            SetOnTrack None; Fire ontrack (BrowserEvent "track" None)]
           world0) =
    [Host (NewRTCPeerConnection []) Done;
     Host (AdapterDisableLog false) Done;
     Invoked (OfConnection ontrack) 4 (Native (BrowserEvent "track" None))].
Proof. reflexivity. Qed.

Example onDataChannel_wraps :
  trace (run agreeable
           [SetOnDataChannel (Some 9); IncomingChannel "chat";
            SetOnDataChannel None; IncomingChannel "files"]
           world0) =
    [Host (NewRTCPeerConnection []) Done;
     Host (AdapterDisableLog false) Done;
     Invoked (OfConnection ondatachannel) 9
       (ChannelEvent (ChannelConnector (Some 0)))].
Proof. reflexivity. Qed.

Example onMessage_replaced :
  trace (run agreeable
           [DoCreateDataChannel "chat";
            ChannelSetOnMessage (ChannelConnector (Some 0)) (Some 1);
            ChannelSetOnMessage (ChannelConnector (Some 0)) (Some 2);
            FireChannel 0 onmessage (BrowserEvent "message" None)]
           world0) =
    [Host (NewRTCPeerConnection []) Done;
     Host (AdapterDisableLog false) Done;
     Host (CreateDataChannel "chat") (ChannelHandle 0);
     Invoked (OfChannel 0 onmessage) 2 (Native (BrowserEvent "message" None))].
Proof. reflexivity. Qed.

(** C9. Let a setter of either connector assign [callback] (a function
    or [null]) to its slot.  Whatever was registered there before, the
    slot then holds [callback], and it keeps holding it through every
    history that does not assign the slot again.  During such a history
    the events on the slot call the new function and no other, once per
    event; when [callback] is [null] they call nothing, so a function
    registered earlier is not called any more.  For [onDataChannel] the
    attribute of the connection holds the wrapping function when
    [callback] is a function and [null] when it is [null]. *)
Theorem callback_slot_replaced_or_cleared (E : Engine) (s : Step)
    (slot : Slot) (callback : option Callback) (w : World)
    (steps : list Step) :
  assigns s = Some (slot, callback) ->
  slotExists w slot \/ callback = None ->
  Forall (fun s' => assignsTo slot s' = false) steps ->
  let w1 := step E s w in
  registered w1 slot = callback
  /\ registered (run E steps w1) slot = callback
  /\ invocations slot (trace (run E steps w1)) =
       invocations slot (trace w) ++
         match callback with
         | Some new => replicate (eventsOn slot steps) new
         | None => []
         end
  /\ (slot = OfConnection ondatachannel ->
      handlers (connection w1) ondatachannel = WrapChannel <$> callback).
Proof.
  intros Hs Hex Hsteps w1.
  destruct (assigns_public s slot callback Hs) as [Hneg Hquiet].
  assert (Hw1 : registered w1 slot = callback)
    by now apply step_registered_assigned.
  destruct (run_registered E slot callback steps w1 Hneg Hw1 Hsteps)
    as [Hkept Hcalls].
  split; [assumption |]. split; [assumption |]. split.
  - rewrite Hcalls. subst w1. rewrite step_invocations, Hquiet.
    now rewrite app_nil_r.
  - intros ->. subst w1. clear - Hs.
    destruct s; simpl in Hs; try discriminate;
      try (destruct self as [[k|]]; simpl in Hs; discriminate);
      simplify_eq.
    unfold step, after, PC.onDataChannel, PC.set_attribute, modify.
    match goal with |- context [WrapChannel <$> ?c] => now destruct c end.
Qed.

Lemma callback_slot_replaced_or_cleared_witness :
  let ev := BrowserEvent "track" None in
  registered (step agreeable (SetOnTrack None) world_listening)
    (OfConnection ontrack) = None
  /\ invocations (OfConnection ontrack)
       (trace (run agreeable [Fire ontrack ev; DoClose; Fire ontrack ev]
                 (step agreeable (SetOnTrack None) world_listening)))
     = invocations (OfConnection ontrack) (trace world_listening).
Proof.
  intros ev.
  destruct (callback_slot_replaced_or_cleared agreeable (SetOnTrack None)
              (OfConnection ontrack) None world_listening
              [Fire ontrack ev; DoClose; Fire ontrack ev])
    as (Hnow & _ & Hcalls & _).
  - reflexivity.
  - right; reflexivity.
  - repeat constructor.
  - split; [exact Hnow |]. rewrite Hcalls. apply app_nil_r.
Defined.

(** ** Statistics *)

Example collectReceiversStats_AB :
  collectorCalls
    (trace (after (PC.collectReceiversStats selective receiversAB 1) world0))
  = [(1, [[entry0]; [entry0]], "streamA")].
Proof. reflexivity. Qed.

Example collectReceiversStats_empty_report :
  trace (after (PC.collectReceiversStats terse [("streamB", [3])] 1) world0)
  = [Host (NewRTCPeerConnection []) Done;
  Host (AdapterDisableLog false) Done;
     Host (GetStats 3) (Stats (Some []));
     Collected 1 [[]] "streamB"].
Proof. reflexivity. Qed.

Section Statistics.

Context (E : Engine).

Lemma batchOf_cons reply replies :
  batchOf (reply :: replies) =
    match reply with
    | Some report => convertStatsReport report :: batchOf replies
    | None => batchOf replies
    end.
Proof. now destruct reply. Qed.

(** A batch is empty exactly when no reply carries a report. *)
Lemma batchOf_nil replies :
  batchOf replies = [] <-> Forall (fun reply => reply = None) replies.
Proof.
  induction replies as [|[report|] replies IH]; rewrite ?batchOf_cons.
  - split; [constructor | reflexivity].
  - split; [discriminate |]. intros H. now apply Forall_cons in H as [? _].
  - rewrite IH. split; [now constructor |].
    intros H. now apply Forall_cons in H as [_ ?].
Qed.

(** The inner loop: it asks the browser for the statistics of the
    tracks in order and appends the reports obtained to [stats]; the
    first rejection ends it. *)
Lemma receiverTracksStats_spec tracks stats w :
  match PC.receiverTracksStats E tracks stats w with
  | (Resolved out, w') =>
      exists replies,
        length replies = length tracks
        /\ trace w' = trace w ++ statsEvents tracks replies
        /\ out = stats ++ batchOf replies
  | (Rejected e, w') =>
      exists replies track,
        tracks !! length replies = Some track
        /\ trace w' = trace w ++ statsEvents tracks replies
                        ++ [Host (GetStats track) (Failed e)]
  end.
Proof.
  revert stats w. induction tracks as [|track tracks IH]; intros stats w.
  - simpl. exists []. now rewrite !app_nil_r.
  - simpl. unfold host_getStats, hostOutcome, mbind, Async_bind.
    destruct (statsOutcome E (trace w) track) as [e|reply] eqn:Hreply.
    + exists [], track. simpl. auto.
    + specialize (IH (match reply with
                      | Some trackStats => stats ++ [convertStatsReport trackStats]
                      | None => stats
                      end)
                     (log (Host (GetStats track) (Stats reply)) w)).
      destruct (PC.receiverTracksStats E tracks _ _) as [[out|e] w'].
      * destruct IH as (replies & Hlen & Htrace & Hout).
        exists (reply :: replies). simpl. split; [now rewrite Hlen |].
        split.
        -- rewrite Htrace. simpl. now rewrite <- app_assoc.
        -- rewrite Hout, batchOf_cons. destruct reply; [|reflexivity].
           now rewrite <- app_assoc.
      * destruct IH as (replies & track' & Hnext & Htrace).
        exists (reply :: replies), track'. simpl. split; [assumption |].
        rewrite Htrace. simpl. now rewrite <- app_assoc.
Qed.

Lemma collectorCalls_app t1 t2 :
  collectorCalls (t1 ++ t2) = collectorCalls t1 ++ collectorCalls t2.
Proof. apply omap_app. Qed.

Lemma collectorCalls_statsEvents tracks replies :
  collectorCalls (statsEvents tracks replies) = [].
Proof.
  revert replies. induction tracks as [|track tracks IH]; intros [|r replies];
    simpl; auto.
Qed.

Lemma collectorCalls_streamRound collector round :
  collectorCalls (streamRound collector round)
  = option_list (expectedCall collector round).
Proof.
  unfold streamRound, expectedCall, collectorEvent.
  rewrite collectorCalls_app, collectorCalls_statsEvents.
  now destruct (batchOf round.2).
Qed.

Lemma collectorCalls_rounds collector rounds :
  collectorCalls (concat (streamRound collector <$> rounds))
  = omap (expectedCall collector) rounds.
Proof.
  induction rounds as [|round rounds IH]; [reflexivity |].
  change (collectorCalls
            (streamRound collector round
             ++ concat (streamRound collector <$> rounds))
          = omap (expectedCall collector) (round :: rounds)).
  rewrite collectorCalls_app, collectorCalls_streamRound, IH. simpl.
  now destruct (expectedCall collector round).
Qed.

(** The collector's part of a round, as the code decides it. *)
Lemma collect_or_skip_spec collector stats streamId w :
  (if decide (length stats = 0) then mret tt
   else PC.call_collector collector stats streamId) w
  = (Resolved tt,
     MkWorld (connection w) (channels w)
       (trace w ++ collectorEvent collector streamId stats)).
Proof.
  destruct stats as [|report stats]; simpl.
  - unfold mret, Async_ret. rewrite app_nil_r. now destruct w.
  - reflexivity.
Qed.

Lemma collectReceiversStats_cons streamId tracks receivers collector w :
  PC.collectReceiversStats E ((streamId, tracks) :: receivers) collector w =
    match PC.receiverTracksStats E tracks [] w with
    | (Resolved stats, w1) =>
        PC.collectReceiversStats E receivers collector
          (MkWorld (connection w1) (channels w1)
             (trace w1 ++ collectorEvent collector streamId stats))
    | (Rejected e, w1) => (Rejected e, w1)
    end.
Proof.
  simpl. unfold mbind at 1, Async_bind at 1.
  destruct (PC.receiverTracksStats E tracks [] w) as [[stats|e] w1];
    [| reflexivity].
  unfold mbind, Async_bind. now rewrite collect_or_skip_spec.
Qed.

(** The outer loop, stream by stream: complete rounds, then, if the
    browser rejects a request, the requests of the round it cut short. *)
Lemma collectReceiversStats_spec receivers collector w :
  exists (replies : list (list (option RTCStatsReport))) (rest : Trace),
    trace (after (PC.collectReceiversStats E receivers collector) w)
      = trace w
        ++ concat (streamRound collector <$> zip receivers replies) ++ rest
    /\ Forall (fun round => length round.2 = length round.1.2)
         (zip receivers replies)
    /\ collectorCalls rest = []
    /\ match (PC.collectReceiversStats E receivers collector w).1 with
       | Resolved _ => length replies = length receivers /\ rest = []
       | Rejected e =>
           length replies < length receivers
           /\ exists track, last rest = Some (Host (GetStats track) (Failed e))
       end.
Proof.
  revert w. induction receivers as [|[streamId tracks] receivers IH]; intros w.
  - exists [], []. simpl. rewrite app_nil_r. auto.
  - unfold after. rewrite collectReceiversStats_cons.
    pose proof (receiverTracksStats_spec tracks [] w) as Hinner.
    destruct (PC.receiverTracksStats E tracks [] w) as [[stats|e] w1].
    + destruct Hinner as (rs & Hlen & Htrace & ->). simpl app.
      set (w2 := MkWorld _ _ _).
      destruct (IH w2) as (replies & rest & Hall & Hlens & Hrest & Hout).
      exists (rs :: replies), rest. unfold after in Hall. split; [| split].
      * rewrite Hall. subst w2. simpl. rewrite Htrace.
        unfold streamRound at 2. simpl. now rewrite <- !app_assoc.
      * simpl. constructor; [simpl; assumption | assumption].
      * split; [assumption |]. revert Hout.
        destruct (PC.collectReceiversStats E receivers collector w2).1;
          simpl; intros [Hlen' Hrest']; (split; [lia | assumption]).
    + destruct Hinner as (rs & track & Hnext & Htrace).
      exists [], (statsEvents tracks rs ++ [Host (GetStats track) (Failed e)]).
      simpl. split; [assumption |]. split; [constructor |]. split.
      * rewrite collectorCalls_app, collectorCalls_statsEvents. reflexivity.
      * split; [lia |]. exists track. apply last_snoc.
Qed.

(** The request made for the video or the audio entry of a stream is
    the inner loop over the track the entry contributes. *)
Lemma sender_part entry stats w :
  match entry ≫= entry_track, entry ≫= entry_sender with
  | Some track, Some _ =>
      reply ← host_getStats E track;
      mret (match reply with
            | Some report => stats ++ [convertStatsReport report]
            | None => stats
            end)
  | _, _ => mret stats
  end w
  = PC.receiverTracksStats E (contributes entry) stats w.
Proof. now destruct entry as [[[track|] [s|]]|]. Qed.

Lemma receiverTracksStats_app tracks1 tracks2 stats w :
  PC.receiverTracksStats E (tracks1 ++ tracks2) stats w =
    match PC.receiverTracksStats E tracks1 stats w with
    | (Resolved stats1, w1) => PC.receiverTracksStats E tracks2 stats1 w1
    | (Rejected e, w1) => (Rejected e, w1)
    end.
Proof.
  revert stats w. induction tracks1 as [|track tracks1 IH]; intros stats w.
  - reflexivity.
  - simpl. unfold mbind, Async_bind.
    destruct (host_getStats E track w) as [[reply|e] w1]; [apply IH |].
    reflexivity.
Qed.

Lemma collectSendersStats_cons streamId stream senders collector w :
  PC.collectSendersStats E ((streamId, stream) :: senders) collector w =
    match PC.receiverTracksStats E (senderTracks stream) [] w with
    | (Resolved stats, w1) =>
        PC.collectSendersStats E senders collector
          (MkWorld (connection w1) (channels w1)
             (trace w1 ++ collectorEvent collector streamId stats))
    | (Rejected e, w1) => (Rejected e, w1)
    end.
Proof.
  simpl PC.collectSendersStats. unfold mbind at 1, Async_bind at 1.
  pose proof (sender_part (video (sm_tracks stream)) [] w) as Hvideo.
  simpl (_ ++ _) in Hvideo. rewrite Hvideo. clear Hvideo.
  unfold senderTracks.
  rewrite receiverTracksStats_app.
  destruct (PC.receiverTracksStats E (contributes (video (sm_tracks stream)))
              [] w) as [[stats|e] w1]; [| reflexivity].
  unfold mbind at 1, Async_bind at 1. rewrite sender_part.
  destruct (PC.receiverTracksStats E (contributes (audio (sm_tracks stream)))
              stats w1) as [[stats'|e] w2]; [| reflexivity].
  unfold mbind, Async_bind. now rewrite collect_or_skip_spec.
Qed.

(** [collectSendersStats] does for each stream what
    [collectReceiversStats] does for the tracks the stream contributes. *)
Lemma collectSendersStats_as_receivers senders collector w :
  PC.collectSendersStats E senders collector w =
  PC.collectReceiversStats E (senderStreams senders) collector w.
Proof.
  revert w. induction senders as [|[streamId stream] senders IH]; intros w.
  - reflexivity.
  - change (senderStreams ((streamId, stream) :: senders))
      with ((streamId, senderTracks stream) :: senderStreams senders).
    rewrite collectSendersStats_cons, collectReceiversStats_cons.
    destruct (PC.receiverTracksStats E (senderTracks stream) [] w)
      as [[stats|e] w1]; [apply IH | reflexivity].
Qed.

Lemma expectedCall_Some collector round call :
  expectedCall collector round = Some call ->
  call = (collector, batchOf round.2, round.1.1) /\ batchOf round.2 <> [].
Proof.
  unfold expectedCall. destruct (batchOf round.2); [discriminate |].
  intros [= <-]. split; [reflexivity | discriminate].
Qed.

Lemma expectedCall_None collector round :
  expectedCall collector round = None <->
  Forall (fun reply => reply = None) round.2.
Proof.
  rewrite <- batchOf_nil. unfold expectedCall.
  destruct (batchOf round.2); split; (discriminate || reflexivity).
Qed.

(** The streams called are streams of the map, in the order of the map,
    each at most as often as it occurs there. *)
Lemma expected_streams_sublist {V} collector (streams : JsMap V)
    (tracksOf : V -> list MediaStreamTrack) replies :
  (fun call : Callback * Batch * string => call.2)
    <$> omap (expectedCall collector)
          (zip ((fun entry => (entry.1, tracksOf entry.2)) <$> streams)
             replies)
  `sublist_of` keys streams.
Proof.
  revert replies.
  induction streams as [|[streamId v] streams IH]; intros [|rs replies];
    try apply sublist_nil_l.
  simpl. destruct (expectedCall collector _) as [call|] eqn:Hcall.
  - apply expectedCall_Some in Hcall as [-> _]. simpl.
    apply sublist_skip, IH.
  - apply sublist_cons, IH.
Qed.

Lemma expected_calls_nonempty collector rounds :
  Forall (fun call : Callback * Batch * string =>
            call.1.1 = collector /\ call.1.2 <> [])
    (omap (expectedCall collector) rounds).
Proof.
  induction rounds as [|round rounds IH]; simpl; [constructor |].
  destruct (expectedCall collector round) as [call|] eqn:Hcall;
    [| assumption].
  apply expectedCall_Some in Hcall as [-> Hne]. now constructor.
Qed.

Lemma callsDuring_spec {A} (m : Async A) w t :
  trace (after m w) = trace w ++ t -> callsDuring m w = collectorCalls t.
Proof. intros H. unfold callsDuring. now rewrite H, drop_app_length. Qed.

(** A stream with a complete video entry and a complete audio entry,
    both of which get a report: the collector receives the video report
    first. *)
Lemma collectSendersStats_video_first streamId vtrack vsender atrack asender
    videoStats audioStats collector w :
  statsOutcome E (trace w) vtrack = inr (Some videoStats) ->
  statsOutcome E (trace w ++ [Host (GetStats vtrack) (Stats (Some videoStats))])
    atrack = inr (Some audioStats) ->
  callsDuring
    (PC.collectSendersStats E
       [(streamId,
         SenderMap
           (MkSenderTracks (Some (MkSenderEntry (Some vtrack) (Some vsender)))
              (Some (MkSenderEntry (Some atrack) (Some asender)))))]
       collector) w
  = [(collector,
      [convertStatsReport videoStats; convertStatsReport audioStats],
      streamId)].
Proof.
  intros Hvideo Haudio.
  apply (callsDuring_spec _ _
           [Host (GetStats vtrack) (Stats (Some videoStats));
            Host (GetStats atrack) (Stats (Some audioStats));
            Collected collector
              [convertStatsReport videoStats; convertStatsReport audioStats]
              streamId]).
  unfold after. simpl.
  unfold mbind, Async_bind, host_getStats, hostOutcome.
  rewrite Hvideo. simpl. rewrite Haudio. simpl.
  now rewrite <- !app_assoc.
Qed.

End Statistics.

Lemma keys_identity {V} (streams : JsMap V) :
  (fun entry : string * V => (entry.1, id entry.2)) <$> streams = streams.
Proof.
  induction streams as [|[streamId v] streams IH]; [reflexivity |].
  rewrite fmap_cons. now f_equal.
Qed.

Lemma NoDup_strings_AB : NoDup ["streamA"; "streamB"].
Proof.
  apply NoDup_cons. split.
  - intros H. apply list_elem_of_singleton in H. discriminate.
  - apply NoDup_singleton.
Qed.

(** C3, as the code has it.  [collectReceiversStats] goes through the
    streams in the iteration order of the map.  For each stream it
    requests the statistics of the stream's tracks in order, and then
    calls the collector once, with the stream identifier and the batch
    of the converted reports (one per track for which the browser gave a
    report, be the report empty or not), unless no track of the stream
    got a report: then the batch is empty and the collector is not
    called for that stream.  So the collector is called at most once per
    stream, in the order of the map, and never with an empty batch.  A
    rejected request ends the collection with that rejection; the
    streams before it are complete and nothing is collected after it. *)
Theorem collectReceiversStats_collector_calls (E : Engine)
    (receivers : JsMap (JsSet MediaStreamTrack)) (collector : Callback)
    (w : World) :
  NoDup (keys receivers) ->
  let calls := callsDuring (PC.collectReceiversStats E receivers collector) w in
  exists (replies : list (list (option RTCStatsReport))) (rest : Trace),
    trace (after (PC.collectReceiversStats E receivers collector) w)
      = trace w
        ++ concat (streamRound collector <$> zip receivers replies) ++ rest
    /\ Forall (fun round => length round.2 = length round.1.2)
         (zip receivers replies)
    /\ collectorCalls rest = []
    /\ match (PC.collectReceiversStats E receivers collector w).1 with
       | Resolved _ => length replies = length receivers /\ rest = []
       | Rejected e =>
           length replies < length receivers
           /\ exists track, last rest = Some (Host (GetStats track) (Failed e))
       end
    /\ calls = omap (expectedCall collector) (zip receivers replies)
    /\ Forall (fun round =>
                 expectedCall collector round = None <->
                 Forall (fun reply => reply = None) round.2)
         (zip receivers replies)
    /\ (fun call => call.2) <$> calls `sublist_of` keys receivers
    /\ NoDup ((fun call => call.2) <$> calls)
    /\ Forall (fun call => call.1.1 = collector /\ call.1.2 <> []) calls.
Proof.
  intros Hkeys calls.
  destruct (collectReceiversStats_spec E receivers collector w)
    as (replies & rest & Htrace & Hlens & Hrest & Hout).
  exists replies, rest.
  assert (Hcalls : calls = omap (expectedCall collector) (zip receivers replies)).
  { subst calls. rewrite (callsDuring_spec _ _ _ Htrace).
    rewrite collectorCalls_app, collectorCalls_rounds, Hrest.
    apply app_nil_r. }
  assert (Hsub : (fun call : Callback * Batch * string => call.2) <$> calls
                 `sublist_of` keys receivers).
  { rewrite Hcalls. rewrite <- (keys_identity receivers) at 1.
    apply expected_streams_sublist. }
  repeat (split; [assumption |]).
  split.
  { apply Forall_forall. intros round _. apply expectedCall_None. }
  split; [assumption |].
  split; [exact (sublist_NoDup _ _ Hkeys Hsub) |].
  rewrite Hcalls. apply expected_calls_nonempty.
Qed.

Lemma collectReceiversStats_collector_calls_witness :
  NoDup (keys receiversAB)
  /\ NoDup ((fun call : Callback * Batch * string => call.2)
             <$> callsDuring
                   (PC.collectReceiversStats selective receiversAB 1) world0).
Proof.
  split; [exact NoDup_strings_AB |].
  destruct (collectReceiversStats_collector_calls selective receiversAB 1
              world0 NoDup_strings_AB)
    as (replies & rest & _ & _ & _ & _ & _ & _ & _ & Hnodup & _).
  exact Hnodup.
Defined.

(** C3, as stated, fails: a browser whose report for a track has no
    entry still makes the collector run, with a batch that holds one
    empty sequence, so the collector is called for a stream for which no
    report with entries was produced. *)
Lemma collectReceiversStats_empty_report_counterexample :
  ~ collectsOnlyNonEmptyReports terse [("streamB", [3])] 1 world0.
Proof.
  intros Hclaim.
  destruct (Hclaim (1, [[]], "streamB")) as (report & Hin & Hne).
  - apply list_elem_of_singleton. reflexivity.
  - apply list_elem_of_singleton in Hin. contradiction.
Qed.

Example collectSendersStats_AB :
  trace (after (PC.collectSendersStats agreeable sendersAB 1) world0)
  = [Host (NewRTCPeerConnection []) Done;
  Host (AdapterDisableLog false) Done;
     Host (GetStats 1)
       (Stats (Some [("RTCInboundRTPVideoStream_1", entry0)]));
     Host (GetStats 2)
       (Stats (Some [("RTCInboundRTPVideoStream_1", entry0)]));
     Collected 1 [[entry0]; [entry0]] "streamA"].
Proof. reflexivity. Qed.

(** C10.  [collectSendersStats] does for each stream what
    [collectReceiversStats] does for the tracks the stream contributes:
    the video track when the video entry has both a track and a sender,
    then the audio track when the audio entry has both.  So the report of
    the video track, if there is one, comes before the report of the
    audio track in the batch (first part of the statement: a stream with
    two complete entries that both get a report); the collector is called
    at most once per stream, in the order of the map, and never with an
    empty batch. *)
Theorem collectSendersStats_collector_calls (E : Engine)
    (senders : JsMap IPeerConnectionSenderMap) (collector : Callback)
    (w : World) :
  NoDup (keys senders) ->
  let calls := callsDuring (PC.collectSendersStats E senders collector) w in
  let streams := senderStreams senders in
  (forall streamId vtrack vsender atrack asender videoStats audioStats w0,
     statsOutcome E (trace w0) vtrack = inr (Some videoStats) ->
     statsOutcome E
       (trace w0 ++ [Host (GetStats vtrack) (Stats (Some videoStats))])
       atrack = inr (Some audioStats) ->
     callsDuring
       (PC.collectSendersStats E
          [(streamId,
            SenderMap
              (MkSenderTracks
                 (Some (MkSenderEntry (Some vtrack) (Some vsender)))
                 (Some (MkSenderEntry (Some atrack) (Some asender)))))]
          collector) w0
     = [(collector,
         [convertStatsReport videoStats; convertStatsReport audioStats],
         streamId)])
  /\ PC.collectSendersStats E senders collector w
     = PC.collectReceiversStats E streams collector w
  /\ exists (replies : list (list (option RTCStatsReport))) (rest : Trace),
       trace (after (PC.collectSendersStats E senders collector) w)
         = trace w
           ++ concat (streamRound collector <$> zip streams replies) ++ rest
       /\ Forall (fun round => length round.2 = length round.1.2)
            (zip streams replies)
       /\ collectorCalls rest = []
       /\ match (PC.collectSendersStats E senders collector w).1 with
          | Resolved _ => length replies = length senders /\ rest = []
          | Rejected e =>
              length replies < length senders
              /\ exists track,
                   last rest = Some (Host (GetStats track) (Failed e))
          end
       /\ calls = omap (expectedCall collector) (zip streams replies)
       /\ (fun call => call.2) <$> calls `sublist_of` keys senders
       /\ NoDup ((fun call => call.2) <$> calls)
       /\ Forall (fun call => call.1.1 = collector /\ call.1.2 <> []) calls.
Proof.
  intros Hkeys calls streams.
  split; [intros; now apply collectSendersStats_video_first |].
  pose proof (collectSendersStats_as_receivers E senders collector w) as Heq.
  split; [exact Heq |].
  destruct (collectReceiversStats_spec E streams collector w)
    as (replies & rest & Htrace & Hlens & Hrest & Hout).
  fold streams in Heq. unfold after in *. rewrite <- Heq in Htrace, Hout.
  exists replies, rest.
  assert (Hcalls : calls = omap (expectedCall collector) (zip streams replies)).
  { subst calls. rewrite (callsDuring_spec _ _ _ Htrace).
    rewrite collectorCalls_app, collectorCalls_rounds, Hrest.
    apply app_nil_r. }
  assert (Hsub : (fun call : Callback * Batch * string => call.2) <$> calls
                 `sublist_of` keys senders).
  { rewrite Hcalls. apply expected_streams_sublist. }
  repeat (split; [assumption |]).
  split.
  { subst streams. unfold senderStreams in Hout.
    now rewrite length_fmap in Hout. }
  split; [assumption |]. split; [assumption |].
  split; [exact (sublist_NoDup _ _ Hkeys Hsub) |].
  rewrite Hcalls. apply expected_calls_nonempty.
Qed.

Lemma collectSendersStats_collector_calls_witness :
  NoDup (keys sendersAB)
  /\ PC.collectSendersStats agreeable sendersAB 1 world0
     = PC.collectReceiversStats agreeable
         [("streamA", [1; 2]); ("streamB", [])] 1 world0.
Proof.
  split; [exact NoDup_strings_AB |].
  exact (proj1 (proj2 (collectSendersStats_collector_calls agreeable
                         sendersAB 1 world0 NoDup_strings_AB))).
Defined.

(** * Further properties *)

(** X3. [restartHandshake] succeeds, with one call of [restartIce],
    exactly when [canRestartHandshake] is true; when it is false the
    call throws before anything reaches the browser. *)
Theorem restartHandshake_when_supported (E : Engine) (w : World) :
  match PC.canRestartHandshake E with
  | true =>
      PC.restartHandshake E w = (Resolved tt, log (Host RestartIce Done) w)
  | false => exists e, PC.restartHandshake E w = (Rejected e, w)
  end.
Proof.
  unfold PC.canRestartHandshake, PC.restartHandshake, host_restartIce.
  destruct (restartIceDefined E); [reflexivity | eexists; reflexivity].
Qed.

(** X8. [createAnswer] does not undo the remote description: once the
    browser has accepted the offer (a description that is not a
    rollback), the offer is the remote description and candidates can be
    added, even when the generation of the answer or the commit of the
    local description is rejected afterwards. *)
Theorem createAnswer_keeps_accepted_offer (E : Engine)
    (offer : IPeerConnectionSessionDescription) (w : World) :
  sd_type offer <> "rollback" ->
  remoteDescriptionVerdict E (trace w) offer = None ->
  remoteDescription (connection (after (PC.createAnswer E offer) w))
    = Some offer
  /\ PC.canAddCandidates (after (PC.createAnswer E offer) w) = true.
Proof.
  intros Htype Haccepted.
  pose proof (step_remoteDescription E (DoCreateAnswer offer) w) as Hstep.
  simpl in Hstep. rewrite Haccepted, remoteDescription_setRemote in Hstep.
  rewrite decide_False in Hstep by assumption.
  split; [exact Hstep |].
  unfold PC.canAddCandidates. now rewrite Hstep.
Qed.

Lemma createAnswer_keeps_accepted_offer_witness :
  remoteDescriptionVerdict answerless (trace world0) offer0 = None
  /\ (PC.createAnswer answerless offer0 world0).1 = Rejected "OperationError"
  /\ PC.canAddCandidates (after (PC.createAnswer answerless offer0) world0)
     = true.
Proof.
  split; [reflexivity |]. split; [reflexivity |].
  refine (proj2 (createAnswer_keeps_accepted_offer answerless offer0 world0
                   _ eq_refl)).
  discriminate.
Defined.

Section NegotiationProvenance.

Context (E : Engine) (P : Callback -> Prop).

(** The renegotiation attribute holds nothing or a handler accepted by
    [P], and every function called for renegotiation is accepted by
    [P]. *)
Let fromP (w : World) : Prop :=
  match handlers (connection w) onnegotiationneeded with
  | None => True
  | Some h => exists cb, h = Direct cb /\ P cb
  end
  /\ Forall P (invocations (OfConnection onnegotiationneeded) (trace w)).

Lemma step_fromP s w :
  (forall cb, handlesAnswerWith cb s -> P cb) -> fromP w -> fromP (step E s w).
Proof.
  intros Hs [Hslot Hcalls]. unfold fromP. split.
  - destruct s;
      try (rewrite step_onnegotiationneeded; [exact Hslot | congruence]).
    simpl. unfold after. rewrite handleAnswer_spec.
    destruct (remoteDescriptionVerdict E (trace w) answer); simpl;
      [exact Hslot |].
    destruct (handlers (connection w) onnegotiationneeded) as [h|] eqn:Hh;
      simpl.
    + now rewrite handlers_setRemote, Hh.
    + exists negotiationHandler. split; [reflexivity |].
      apply Hs. now exists answer.
  - rewrite step_invocations. apply Forall_app. split; [exact Hcalls |].
    destruct (firesOn _ s); [| constructor]. simpl.
    destruct (handlers (connection w) onnegotiationneeded) as [h|];
      simpl; [| constructor].
    destruct Hslot as (cb & -> & Hcb). simpl. now repeat constructor.
Qed.

Lemma run_fromP steps w :
  (forall cb, Exists (handlesAnswerWith cb) steps -> P cb) ->
  fromP w -> fromP (run E steps w).
Proof.
  revert w. induction steps as [|s steps IH]; intros w Hsteps Hw;
    [exact Hw |].
  rewrite run_cons. apply IH.
  - intros cb Hcb. apply Hsteps. now apply Exists_cons_tl.
  - apply step_fromP; [| exact Hw].
    intros cb Hcb. apply Hsteps. now apply Exists_cons_hd.
Qed.

End NegotiationProvenance.

(** X6. Whatever the history of a connector, the function held for
    renegotiation, if there is one, is a handler that was passed to
    [handleAnswer] in that history, stored as it was passed, and every
    function ever called for a renegotiation-needed event is such a
    handler.  So a connector on which [handleAnswer] was never called
    drops these events. *)
Theorem negotiation_handler_comes_from_handleAnswer (E : Engine)
    (config : IPeerConnectionConfiguration) (steps : list Step) :
  let w := run E steps (PC.constructor config) in
  match handlers (connection w) onnegotiationneeded with
  | None => True
  | Some h =>
      exists negotiationHandler,
        h = Direct negotiationHandler
        /\ Exists (handlesAnswerWith negotiationHandler) steps
  end
  /\ Forall (fun cb => Exists (handlesAnswerWith cb) steps)
       (invocations (OfConnection onnegotiationneeded) (trace w)).
Proof.
  apply (run_fromP E (fun cb => Exists (handlesAnswerWith cb) steps)).
  - auto.
  - split; [exact I | constructor].
Qed.

(** X7. Events are not queued.  On a connector just constructed, as long
    as no callback is assigned to a slot, the events on that slot call
    nothing, and a callback assigned afterwards is not called for
    them. *)
Theorem events_before_registration_dropped (E : Engine)
    (config : IPeerConnectionConfiguration) (slot : Slot)
    (steps : list Step) :
  slot <> OfConnection onnegotiationneeded ->
  Forall (fun s => assignsTo slot s = false) steps ->
  let w := run E steps (PC.constructor config) in
  registered w slot = None
  /\ invocations slot (trace w) = []
  /\ forall s callback,
       assigns s = Some (slot, callback) ->
       invocations slot (trace (step E s w)) = [].
Proof.
  intros Hneg Hsteps w.
  assert (Hfresh : registered (PC.constructor config) slot = None).
  { now destruct slot. }
  destruct (run_registered E slot None steps _ Hneg Hfresh Hsteps)
    as [Hnone Hcalls].
  fold w in Hnone, Hcalls. simpl in Hcalls.
  split; [exact Hnone |]. split; [exact Hcalls |].
  intros s callback Hs.
  destruct (assigns_public s slot callback Hs) as [_ Hquiet].
  rewrite step_invocations, Hquiet, Hcalls. reflexivity.
Qed.

Lemma events_before_registration_dropped_witness :
  let ev := BrowserEvent "track" None in
  invocations (OfConnection ontrack)
    (trace (step agreeable (SetOnTrack (Some 4))
              (run agreeable [Fire ontrack ev; DoCreateOffer None;
                              Fire ontrack ev]
                 (PC.constructor (Configuration [])))))
  = [].
Proof.
  intros ev.
  refine (proj2 (proj2
    (events_before_registration_dropped agreeable (Configuration [])
       (OfConnection ontrack)
       [Fire ontrack ev; DoCreateOffer None; Fire ontrack ev] _ _))
    (SetOnTrack (Some 4)) (Some 4) eq_refl).
  - discriminate.
  - repeat constructor.
Defined.

(** X14. A registered callback is called by browser events only: a step
    that is not an event on a slot (a method or a setter of either
    connector, or an event on another slot) calls no function through
    that slot. *)
Theorem callbacks_called_only_by_events (E : Engine) (s : Step)
    (slot : Slot) (w : World) :
  firesOn slot s = false ->
  invocations slot (trace (step E s w)) = invocations slot (trace w).
Proof.
  intros Hs. rewrite step_invocations, Hs. apply app_nil_r.
Qed.

Lemma callbacks_called_only_by_events_witness :
  invocations (OfConnection ontrack)
    (trace (step agreeable (HandleAnswer answer0 5) world_listening))
  = invocations (OfConnection ontrack) (trace world_listening).
Proof.
  exact (callbacks_called_only_by_events agreeable (HandleAnswer answer0 5)
           (OfConnection ontrack) world_listening eq_refl).
Defined.

(** ** Data channels *)

Example createDataChannel_then_listen :
  trace (run agreeable
           [DoCreateDataChannel "chat";
            ChannelSetOnClose (ChannelConnector (Some 0)) (Some 8);
            FireChannel 0 onclose (BrowserEvent "close" None);
            FireChannel 0 onmessage (BrowserEvent "message" None)]
           world0) =
    [Host (NewRTCPeerConnection []) Done;
     Host (AdapterDisableLog false) Done;
     Host (CreateDataChannel "chat") (ChannelHandle 0);
     Invoked (OfChannel 0 onclose) 8 (Native (BrowserEvent "close" None))].
Proof. reflexivity. Qed.

(** What a setter of the data channel connector does to the world. *)
Lemma channelSetter_spec s k callback w :
  channelSetter s (createDataChannel (Some k)) callback w
  = (Resolved tt, DC.onChannel k (DC.setChannelHandler s callback) w).
Proof. now destruct s. Qed.


(** A channel just stored is reached by its connector: a callback
    assigned through the connector is the one the events of the channel
    call, and the channels stored before are not touched. *)
Lemma fresh_channel_listens k s callback ev w :
  k < length (channels w) ->
  let w' := after (channelSetter s (createDataChannel (Some k))
                     (Some callback)) w in
  channelHandler w' k s = Some callback
  /\ fireChannel k s ev w'
     = log (Invoked (OfChannel k s) callback (Native ev)) w'
  /\ (forall k' s', k' <> k -> channelHandler w' k' s' = channelHandler w k' s')
  /\ connection w' = connection w
  /\ trace w' = trace w.
Proof.
  intros Hk w'. subst w'. unfold after. rewrite channelSetter_spec. simpl.
  assert (Hset : channelHandler
                   (DC.onChannel k (DC.setChannelHandler s (Some callback)) w)
                   k s = Some callback)
    by now apply channelHandler_set_eq.
  split; [exact Hset |]. split.
  - unfold fireChannel. now rewrite Hset.
  - split; [| split; reflexivity].
    intros k' s' Hk'. apply channelHandler_set_ne. congruence.
Qed.


(** X5. With a callback assigned to [onDataChannel], an incoming channel
    makes the browser's event reach the callback as an object whose
    [channel] is the connector of exactly the incoming channel: a
    callback assigned through that connector is the function the events
    of the incoming channel call. *)
Theorem onDataChannel_hands_connector_of_incoming_channel
    (callback : Callback) (label : string) (w : World) :
  let k := length (channels w) in
  let w1 := after (PC.onDataChannel (Some callback)) w in
  let w2 := incomingChannel label w1 in
  trace w2 = trace w ++
    [Invoked (OfConnection ondatachannel) callback
       (ChannelEvent (createDataChannel (Some k)))]
  /\ channels w2 = channels w ++ [newChannel label]
  /\ forall s cb ev,
       let w3 := after (channelSetter s (createDataChannel (Some k)) (Some cb))
                   w2 in
       fireChannel k s ev w3 = log (Invoked (OfChannel k s) cb (Native ev)) w3.
Proof.
  intros k w1 w2.
  assert (Hw2 : w2 = log (Invoked (OfConnection ondatachannel) callback
                            (ChannelEvent (createDataChannel (Some k))))
                       (MkWorld (connection w1)
                          (channels w ++ [newChannel label]) (trace w))).
  { subst w2 w1. unfold incomingChannel, fire, after, PC.onDataChannel,
      PC.set_attribute, modify. simpl. reflexivity. }
  split; [now rewrite Hw2 |]. split; [now rewrite Hw2 |].
  intros s cb ev.
  destruct (fresh_channel_listens k s cb ev w2) as (_ & Hfire & _).
  { rewrite Hw2; simpl. rewrite length_app; simpl. subst k. lia. }
  exact Hfire.
Qed.

(** ** Tracks *)

(** What [replaceTrack] does, in full. *)
Lemma replaceTrack_spec (E : Engine) track sender w :
  PC.replaceTrack E track sender w =
    match replaceTrackVerdict E (trace w) sender track with
    | Some e => (Rejected e, log (Host (ReplaceTrack sender track) (Failed e)) w)
    | None =>
        (Resolved tt,
         onConnection
           (setTransceivers
              (map (fun transceiver =>
                      if decide (tr_sender transceiver = sender)
                      then setDirection sendrecv transceiver
                      else transceiver)
                 (transceivers (connection w))))
           (log (Host GetTransceivers
                   (Transceivers (transceivers (connection w))))
              (log (Host (ReplaceTrack sender track) Done) w)))
    end.
Proof.
  unfold PC.replaceTrack, host_replaceTrack, host_getTransceivers.
  async_unfold.
  now destruct (replaceTrackVerdict E (trace w) sender track).
Qed.

Lemma redirect_idempotent (sender : RTCRtpSender)
    (l : list RTCRtpTransceiver) :
  let redirect := fun transceiver =>
    if decide (tr_sender transceiver = sender)
    then setDirection sendrecv transceiver else transceiver in
  map redirect (map redirect l) = map redirect l.
Proof.
  intros redirect. rewrite map_map. apply map_ext. intros t.
  subst redirect; simpl.
  destruct (decide (tr_sender t = sender)) as [Ht|Ht]; simpl.
  - now rewrite decide_True.
  - now rewrite decide_False.
Qed.

Lemma redirect_absent (sender : RTCRtpSender) (l : list RTCRtpTransceiver) :
  Forall (fun transceiver => tr_sender transceiver <> sender) l ->
  map (fun transceiver =>
         if decide (tr_sender transceiver = sender)
         then setDirection sendrecv transceiver else transceiver) l = l.
Proof.
  induction 1 as [|t l Ht _ IH]; simpl; [reflexivity |].
  rewrite decide_False by assumption. now rewrite IH.
Qed.

(** X9. An accepted [replaceTrack] changes directions only: it keeps
    the descriptions and every callback of the connection.  For a sender
    that no transceiver owns it changes no transceiver at all, and a
    second accepted [replaceTrack] on the same sender, whatever the
    track, leaves the transceivers as the first one left them. *)
Theorem replaceTrack_changes_directions_once (E : Engine)
    (track : MediaStreamTrack) (sender : IPeerConnectionSender)
    (w w1 : World) :
  PC.replaceTrack E track sender w = (Resolved tt, w1) ->
  remoteDescription (connection w1) = remoteDescription (connection w)
  /\ localDescription (connection w1) = localDescription (connection w)
  /\ handlers (connection w1) = handlers (connection w)
  /\ (Forall (fun transceiver => tr_sender transceiver <> sender)
        (transceivers (connection w)) ->
      transceivers (connection w1) = transceivers (connection w))
  /\ forall track' w2,
       PC.replaceTrack E track' sender w1 = (Resolved tt, w2) ->
       transceivers (connection w2) = transceivers (connection w1).
Proof.
  rewrite replaceTrack_spec.
  destruct (replaceTrackVerdict E (trace w) sender track); [discriminate |].
  intros [= <-]. simpl. repeat (split; [reflexivity |]). split.
  - apply redirect_absent.
  - intros track' w2. rewrite replaceTrack_spec.
    destruct (replaceTrackVerdict E _ sender track'); [discriminate |].
    intros [= <-]. simpl. apply redirect_idempotent.
Qed.

Lemma replaceTrack_changes_directions_once_witness :
  PC.replaceTrack agreeable 3 9 world_transceivers
    = (Resolved tt, after (PC.replaceTrack agreeable 3 9) world_transceivers)
  /\ transceivers
       (connection (after (PC.replaceTrack agreeable 4 9)
                      (after (PC.replaceTrack agreeable 3 9)
                         world_transceivers)))
     = transceivers
         (connection (after (PC.replaceTrack agreeable 3 9)
                        world_transceivers)).
Proof.
  split; [reflexivity |].
  exact (proj2 (proj2 (proj2 (proj2
           (replaceTrack_changes_directions_once agreeable 3 9
              world_transceivers _ eq_refl)))) 4 _ eq_refl).
Defined.

(** ** Statistics, continued *)

Section MoreStatistics.

Context (E : Engine).

Lemma world_eta w : MkWorld (connection w) (channels w) (trace w ++ []) = w.
Proof. destruct w; simpl. now rewrite app_nil_r. Qed.

Lemma collectReceiversStats_app_eq receivers1 receivers2 collector w :
  PC.collectReceiversStats E (receivers1 ++ receivers2) collector w =
    match PC.collectReceiversStats E receivers1 collector w with
    | (Resolved _, w1) => PC.collectReceiversStats E receivers2 collector w1
    | (Rejected e, w1) => (Rejected e, w1)
    end.
Proof.
  revert w.
  induction receivers1 as [|[streamId tracks] receivers1 IH]; intros w.
  - reflexivity.
  - change (((streamId, tracks) :: receivers1) ++ receivers2)
      with ((streamId, tracks) :: (receivers1 ++ receivers2)).
    rewrite !collectReceiversStats_cons.
    destruct (PC.receiverTracksStats E tracks [] w) as [[stats|e] w1];
      [apply IH | reflexivity].
Qed.

Lemma senderStreams_app senders1 senders2 :
  senderStreams (senders1 ++ senders2)
  = senderStreams senders1 ++ senderStreams senders2.
Proof. apply fmap_app. Qed.

Lemma collectReceiversStats_trackless
    (receivers : list (string * list MediaStreamTrack)) collector w :
  PC.collectReceiversStats E
    (filter (fun entry => entry.2 <> []) receivers) collector w
  = PC.collectReceiversStats E receivers collector w.
Proof.
  revert w. induction receivers as [|[streamId tracks] receivers IH]; intros w.
  - reflexivity.
  - assert (Hfilter :
      filter (fun entry : string * list MediaStreamTrack => entry.2 <> [])
        ((streamId, tracks) :: receivers)
      = if decide (tracks <> [])
        then (streamId, tracks)
             :: filter (fun entry : string * list MediaStreamTrack =>
                          entry.2 <> []) receivers
        else filter (fun entry : string * list MediaStreamTrack =>
                       entry.2 <> []) receivers) by reflexivity.
    rewrite Hfilter. clear Hfilter.
    destruct (decide (tracks <> [])) as [Htracks|Htracks].
    + rewrite !collectReceiversStats_cons.
      destruct (PC.receiverTracksStats E tracks [] w)
        as [[stats|e] w1]; [apply IH | reflexivity].
    + destruct tracks as [|track tracks]; [| now destruct Htracks].
      rewrite collectReceiversStats_cons. simpl.
      rewrite world_eta. apply IH.
Qed.

Lemma senderStreams_filter
    (senders : list (string * IPeerConnectionSenderMap)) :
  senderStreams (filter (fun entry => senderTracks entry.2 <> []) senders)
  = filter (fun entry => entry.2 <> []) (senderStreams senders).
Proof.
  induction senders as [|[streamId stream] senders IH]; [reflexivity |].
  unfold senderStreams in *.
  assert (Hleft :
    filter (fun entry : string * IPeerConnectionSenderMap =>
              senderTracks entry.2 <> []) ((streamId, stream) :: senders)
    = if decide (senderTracks stream <> [])
      then (streamId, stream)
           :: filter (fun entry : string * IPeerConnectionSenderMap =>
                        senderTracks entry.2 <> []) senders
      else filter (fun entry : string * IPeerConnectionSenderMap =>
                     senderTracks entry.2 <> []) senders) by reflexivity.
  rewrite Hleft. clear Hleft. rewrite fmap_cons.
  assert (Hright : forall (x : string * list MediaStreamTrack) l,
    filter (fun entry : string * list MediaStreamTrack => entry.2 <> [])
      (x :: l)
    = if decide (x.2 <> [])
      then x :: filter (fun entry : string * list MediaStreamTrack =>
                          entry.2 <> []) l
      else filter (fun entry : string * list MediaStreamTrack =>
                     entry.2 <> []) l) by reflexivity.
  rewrite Hright. clear Hright. simpl.
  destruct (decide (senderTracks stream <> [])); [rewrite fmap_cons |];
    now rewrite IH.
Qed.

End MoreStatistics.

(** X10. Collecting over a map is collecting over its first streams and
    then, from where that ended, over the remaining ones; when a request
    of the first part is rejected, nothing is requested or collected for
    the remaining streams.  The same holds for a sender map. *)
Theorem collect_stats_of_appended_maps (E : Engine) (collector : Callback)
    (w : World) :
  (forall receivers1 receivers2,
     PC.collectReceiversStats E (receivers1 ++ receivers2) collector w =
       match PC.collectReceiversStats E receivers1 collector w with
       | (Resolved _, w1) =>
           PC.collectReceiversStats E receivers2 collector w1
       | (Rejected e, w1) => (Rejected e, w1)
       end)
  /\ (forall senders1 senders2,
        PC.collectSendersStats E (senders1 ++ senders2) collector w =
          match PC.collectSendersStats E senders1 collector w with
          | (Resolved _, w1) => PC.collectSendersStats E senders2 collector w1
          | (Rejected e, w1) => (Rejected e, w1)
          end).
Proof.
  split.
  - intros. apply collectReceiversStats_app_eq.
  - intros senders1 senders2.
    rewrite !collectSendersStats_as_receivers, senderStreams_app,
      collectReceiversStats_app_eq.
    destruct (PC.collectReceiversStats E (senderStreams senders1) collector w)
      as [[[]|e] w1]; [| reflexivity].
    now rewrite collectSendersStats_as_receivers.
Qed.

(** X11. A stream without tracks makes no difference: removing from the
    receivers the streams whose track set is empty, or from the senders
    the streams that have neither a complete video entry nor a complete
    audio entry, leaves the result, the calls to the browser and the
    calls of the collector exactly as they are. *)
Theorem collect_stats_ignores_trackless_streams (E : Engine)
    (collector : Callback) (w : World) :
  (forall receivers : list (string * list MediaStreamTrack),
     PC.collectReceiversStats E
       (filter (fun entry => entry.2 <> []) receivers) collector w
     = PC.collectReceiversStats E receivers collector w)
  /\ (forall senders : list (string * IPeerConnectionSenderMap),
        PC.collectSendersStats E
          (filter (fun entry => senderTracks entry.2 <> []) senders)
          collector w
        = PC.collectSendersStats E senders collector w).
Proof.
  split.
  - intros. apply collectReceiversStats_trackless.
  - intros senders.
    rewrite !collectSendersStats_as_receivers, senderStreams_filter.
    apply collectReceiversStats_trackless.
Qed.

Section Requests.

Context (E : Engine).

Lemma statsRequests_app t1 t2 :
  statsRequests (t1 ++ t2) = statsRequests t1 ++ statsRequests t2.
Proof. apply omap_app. Qed.

Lemma statsRequests_statsEvents tracks replies :
  statsRequests (statsEvents tracks replies) = take (length replies) tracks.
Proof.
  revert replies. induction tracks as [|track tracks IH]; intros [|r replies];
    simpl; try reflexivity.
  now rewrite <- IH.
Qed.

Lemma statsRequests_collectorEvent collector streamId batch :
  statsRequests (collectorEvent collector streamId batch) = [].
Proof. now destruct batch. Qed.

(** The inner loop requests the statistics of the tracks in order, up
    to the first rejection. *)
Lemma receiverTracksStats_requests tracks stats w :
  exists added,
    trace (PC.receiverTracksStats E tracks stats w).2 = trace w ++ added
    /\ statsRequests added `prefix_of` tracks
    /\ match (PC.receiverTracksStats E tracks stats w).1 with
       | Resolved _ => statsRequests added = tracks
       | Rejected _ => True
       end.
Proof.
  pose proof (receiverTracksStats_spec E tracks stats w) as Hspec.
  destruct (PC.receiverTracksStats E tracks stats w) as [[out|e] w1]; simpl.
  - destruct Hspec as (replies & Hlen & Htrace & _).
    exists (statsEvents tracks replies).
    rewrite statsRequests_statsEvents, Hlen, firstn_all. auto.
  - destruct Hspec as (replies & track & Hnext & Htrace).
    exists (statsEvents tracks replies ++ [Host (GetStats track) (Failed e)]).
    split; [assumption |]. split; [| exact I].
    rewrite statsRequests_app, statsRequests_statsEvents. simpl.
    rewrite <- (take_S_r _ _ _ Hnext). apply prefix_take.
Qed.

(** The outer loop requests the statistics of all the tracks of the
    map, stream after stream, up to the first rejection. *)
Lemma collectReceiversStats_requests
    (receivers : list (string * list MediaStreamTrack)) collector w :
  exists added,
    trace (after (PC.collectReceiversStats E receivers collector) w)
      = trace w ++ added
    /\ statsRequests added `prefix_of` concat receivers.*2
    /\ match (PC.collectReceiversStats E receivers collector w).1 with
       | Resolved _ => statsRequests added = concat receivers.*2
       | Rejected _ => True
       end.
Proof.
  revert w. induction receivers as [|[streamId tracks] receivers IH]; intros w.
  - exists []. simpl. rewrite app_nil_r. auto.
  - unfold after. rewrite collectReceiversStats_cons.
    destruct (receiverTracksStats_requests tracks [] w)
      as (added1 & Htrace1 & Hprefix1 & Hall1).
    destruct (PC.receiverTracksStats E tracks [] w) as [[stats|e] w1];
      simpl in *.
    + set (w2 := MkWorld _ _ _).
      destruct (IH w2) as (added2 & Htrace2 & Hprefix2 & Hall2).
      exists (added1 ++ collectorEvent collector streamId stats ++ added2).
      unfold after in Htrace2. split; [| split].
      * rewrite Htrace2. subst w2; simpl. rewrite Htrace1.
        now rewrite <- !app_assoc.
      * rewrite !statsRequests_app, statsRequests_collectorEvent, Hall1.
        simpl. now apply prefix_app.
      * destruct (PC.collectReceiversStats E receivers collector w2).1;
          [| exact I].
        rewrite !statsRequests_app, statsRequests_collectorEvent, Hall1, Hall2.
        reflexivity.
    + exists added1. split; [assumption |]. split; [| exact I].
      now apply prefix_app_r.
Qed.

Lemma senderStreams_tracks (senders : list (string * IPeerConnectionSenderMap)) :
  (senderStreams senders).*2 = senderTracks <$> senders.*2.
Proof.
  unfold senderStreams. rewrite <- !list_fmap_compose. reflexivity.
Qed.

Lemma senderTracks_at_most_two stream : length (senderTracks stream) <= 2.
Proof.
  destruct stream as [[v a]]. unfold senderTracks; simpl.
  destruct v as [[[vt|] [vs|]]|], a as [[[aT|] [aS|]]|]; simpl; lia.
Qed.

Lemma length_concat_senderTracks (streams : list IPeerConnectionSenderMap) :
  length (concat (senderTracks <$> streams)) <= 2 * length streams.
Proof.
  induction streams as [|stream streams IH]; [simpl; lia |].
  change (concat (senderTracks <$> stream :: streams))
    with (senderTracks stream ++ concat (senderTracks <$> streams)).
  rewrite length_app, length_cons.
  pose proof (senderTracks_at_most_two stream). lia.
Qed.

Lemma senderTracks_rename f stream :
  senderTracks
    (SenderMap
       (MkSenderTracks (renameEntry f (video (sm_tracks stream)))
          (renameEntry f (audio (sm_tracks stream)))))
  = senderTracks stream.
Proof.
  destruct stream as [[v a]]. unfold senderTracks; simpl.
  now destruct v as [[[vt|] [vs|]]|], a as [[[aT|] [aS|]]|].
Qed.

Lemma senderStreams_rename f senders :
  senderStreams (renameSenders f senders) = senderStreams senders.
Proof.
  unfold senderStreams, renameSenders. rewrite <- list_fmap_compose.
  apply list_fmap_ext. intros i [streamId stream] _. simpl.
  now rewrite senderTracks_rename.
Qed.

End Requests.

(** X12. The statistics are requested track by track in the order of
    the map: for receivers, the tracks requested are a prefix of the
    tracks of the streams, stream after stream and each set in its own
    order, and all of them when the collection resolves; for senders the
    same holds of the video then audio tracks of the complete entries, so
    a collection makes at most two requests per stream. *)
Theorem stats_requested_in_map_order (E : Engine) (collector : Callback)
    (w : World) :
  (forall receivers : list (string * list MediaStreamTrack),
     exists added,
       trace (after (PC.collectReceiversStats E receivers collector) w)
         = trace w ++ added
       /\ statsRequests added `prefix_of` concat receivers.*2
       /\ match (PC.collectReceiversStats E receivers collector w).1 with
          | Resolved _ => statsRequests added = concat receivers.*2
          | Rejected _ => True
          end)
  /\ (forall senders : list (string * IPeerConnectionSenderMap),
        exists added,
          trace (after (PC.collectSendersStats E senders collector) w)
            = trace w ++ added
          /\ statsRequests added
               `prefix_of` concat (senderTracks <$> senders.*2)
          /\ length (statsRequests added) <= 2 * length senders
          /\ match (PC.collectSendersStats E senders collector w).1 with
             | Resolved _ =>
                 statsRequests added = concat (senderTracks <$> senders.*2)
             | Rejected _ => True
             end).
Proof.
  split.
  - intros. apply collectReceiversStats_requests.
  - intros senders.
    destruct (collectReceiversStats_requests E (senderStreams senders)
                collector w) as (added & Htrace & Hprefix & Hall).
    unfold after in *.
    rewrite <- collectSendersStats_as_receivers in Htrace, Hall.
    rewrite senderStreams_tracks in Hprefix, Hall.
    exists added. repeat (split; [assumption |]). split; [| assumption].
    apply prefix_length in Hprefix.
    pose proof (length_concat_senderTracks senders.*2) as Hbound.
    rewrite length_fmap in Hbound. lia.
Qed.

(** X15. [collectSendersStats] looks at a sender only to see that there
    is one: with every sender handle of the map replaced by another
    handle, the requests, the calls of the collector and the result are
    the same. *)
Theorem collectSendersStats_ignores_sender_identity (E : Engine)
    (f : IPeerConnectionSender -> IPeerConnectionSender)
    (senders : JsMap IPeerConnectionSenderMap) (collector : Callback)
    (w : World) :
  PC.collectSendersStats E (renameSenders f senders) collector w
  = PC.collectSendersStats E senders collector w.
Proof.
  rewrite !collectSendersStats_as_receivers. now rewrite senderStreams_rename.
Qed.
